(** * Inventory ledger (main.py): a shallow embedding and its properties

    The program keeps two SQLite relations, [items] and [stock_history], and
    exposes three tools: [get_item_stock_price], [change_item_stock] and
    [get_stock_history_by_date].  Each tool opens a connection, runs a few
    SQL statements and returns a formatted string.

    The embedding follows the source statement by statement:
    - the database file is a record [DB] holding the two relations in rowid
      order and their AUTOINCREMENT counters;
    - a connection ([Conn]) carries the committed file, the working copy of
      an open (implicit) transaction and a journal of what was executed;
    - the tools are written in a small state-and-exception monad [M] over
      connections; an exception leaves the function without a commit;
    - the clock ([pendulum.now]) is an explicit argument, the calendar parser
      ([pendulum.parse]) is an interface ([Calendar]). *)

From Stdlib Require Import ZArith List String Ascii Bool Lia.
From Stdlib Require Import Permutation Sorted DecimalString.
Import ListNotations.

Local Open Scope string_scope.
Local Open Scope Z_scope.

(** ** Values *)

(** Python's [str(int)] as used by the f-strings: decimal, with a leading
    minus sign for negative numbers. *)
Definition show_Z (z : Z) : string := NilZero.string_of_int (Z.to_int z).

(** SQLite stores an INTEGER in a signed 64-bit cell. *)
Definition min_int64 : Z := - 2 ^ 63.
Definition max_int64 : Z := 2 ^ 63 - 1.

Definition in_int64 (z : Z) : bool := (min_int64 <=? z) && (z <=? max_int64).

(** Python truthiness of an [Optional[str]]: [None] and [''] are falsy. *)
Definition str_or (r : option string) (dflt : string) : string :=
  match r with
  | None => dflt
  | Some s => if (s =? "")%string then dflt else s
  end.

(** ** The two relations *)

Record Item := mkItem {
  item_id : Z;
  item_name : string;
  price : Z;
  stock : Z;
  created_at : string;
  updated_at : string
}.

Record StockEvent := mkEvent {
  ev_id : Z;
  ev_item_id : Z;
  delta : Z;
  reason : option string;      (* the column is nullable *)
  ev_created_at : string
}.

Record DB := mkDB {
  items : list Item;
  stock_history : list StockEvent;
  items_seq : Z;               (* last rowid handed out for items *)
  history_seq : Z              (* last rowid handed out for stock_history *)
}.

(** ** Connections and the statement monad

    [sqlite3] in its default mode opens a transaction implicitly before the
    first UPDATE or INSERT and keeps it open until [commit]; closing (or
    dropping) a connection discards what was not committed.  Other readers
    only ever see [disk]. *)

Inductive Stmt :=
| SelectItem (name : string)
| UpdateStock (new_stock : Z) (now : string) (id : Z)
| InsertEvent (id d : Z) (why now : string)
| SelectHistory (lo hi : string)
| Commit
| Close.

Definition is_write (s : Stmt) : bool :=
  match s with
  | UpdateStock _ _ _ | InsertEvent _ _ _ _ | Commit => true
  | _ => false
  end.

Record Conn := mkConn {
  disk : DB;                   (* the committed file *)
  txn : option DB;             (* working copy of the open transaction *)
  journal : list Stmt;         (* statements executed, oldest first *)
  disk_trace : list DB         (* the file after each executed statement *)
}.

Definition connect (db : DB) : Conn :=
  {| disk := db; txn := None; journal := []; disk_trace := [] |}.

(** What this connection reads: its own uncommitted changes if any. *)
Definition view (c : Conn) : DB :=
  match txn c with Some w => w | None => disk c end.

Definition record (s : Stmt) (c : Conn) : Conn :=
  {| disk := disk c; txn := txn c;
     journal := (journal c ++ [s])%list;
     disk_trace := (disk_trace c ++ [disk c])%list |}.

Definition write_view (w : DB) (c : Conn) : Conn :=
  {| disk := disk c; txn := Some w;
     journal := journal c; disk_trace := disk_trace c |}.

(** Exceptions the statements can raise from the arguments and the store
    they are given: an [int] parameter outside the signed 64-bit range is
    refused when it is bound ("Python int too large to convert to SQLite
    INTEGER"), and an INSERT into an AUTOINCREMENT table whose counter has
    reached the largest rowid is refused by the engine ("database or disk is
    full"). *)
Inductive Exn :=
| OverflowError
| OperationalError.

Inductive Outcome (A : Type) :=
| Return (a : A)
| Raise (e : Exn).
Arguments Return {A} a.
Arguments Raise {A} e.

Definition M (A : Type) : Type := Conn -> Outcome A * Conn.

Definition ret {A} (a : A) : M A := fun c => (Return a, c).
Definition raise {A} (e : Exn) : M A := fun c => (Raise e, c).
Definition bind {A B} (m : M A) (k : A -> M B) : M B :=
  fun c => match m c with
           | (Return a, c') => k a c'
           | (Raise e, c') => (Raise e, c')
           end.

Declare Scope conn_scope.
Delimit Scope conn_scope with conn.
Notation "x <- m ;; k" := (bind m (fun x => k))
  (at level 100, m at next level, right associativity) : conn_scope.
Notation "m ;;; k" := (bind m (fun _ => k))
  (at level 100, right associativity) : conn_scope.
Local Open Scope conn_scope.

Definition bind_int (z : Z) : M unit :=
  if in_int64 z then ret tt else raise OverflowError.

(** ** The SQL statements of the program *)

(** [SELECT id, stock FROM items WHERE name=?] followed by [fetchone()]. *)
Definition find_item (name : string) (db : DB) : option Item :=
  find (fun i => (item_name i =? name)%string) (items db).

Definition select_item (name : string) : M (option (Z * Z)) :=
  fun c =>
    (Return (option_map (fun i => (item_id i, stock i)) (find_item name (view c))),
     record (SelectItem name) c).

(** [UPDATE items SET stock=?, updated_at=? WHERE id=?] *)
Definition set_stock (new_stock : Z) (now : string) (id : Z) (i : Item) : Item :=
  if item_id i =? id
  then {| item_id := item_id i; item_name := item_name i; price := price i;
          stock := new_stock; created_at := created_at i; updated_at := now |}
  else i.

Definition update_items (new_stock : Z) (now : string) (id : Z) (db : DB) : DB :=
  {| items := map (set_stock new_stock now id) (items db);
     stock_history := stock_history db;
     items_seq := items_seq db;
     history_seq := history_seq db |}.

Definition update_stock (new_stock : Z) (now : string) (id : Z) : M unit :=
  bind_int new_stock ;;;
  bind_int id ;;;
  fun c => (Return tt,
            record (UpdateStock new_stock now id)
                   (write_view (update_items new_stock now id (view c)) c)).

(** [INSERT INTO stock_history (item_id, delta, reason, created_at)
     VALUES (?, ?, ?, ?)]; with AUTOINCREMENT the rowid is one more than
    the largest rowid the table has ever held: the larger of the recorded
    counter and of the rowids present.  [insert_history] is the row being
    added; [insert_event] is the statement, which binds its parameters and
    is refused when no rowid is left. *)
Definition largest_rowid (db : DB) : Z :=
  fold_right Z.max (history_seq db) (map ev_id (stock_history db)).

Definition insert_history (id d : Z) (why now : string) (db : DB) : DB :=
  {| items := items db;
     stock_history :=
       (stock_history db ++
        [{| ev_id := largest_rowid db + 1; ev_item_id := id; delta := d;
            reason := Some why; ev_created_at := now |}])%list;
     items_seq := items_seq db;
     history_seq := largest_rowid db + 1 |}.

Definition insert_event (id d : Z) (why now : string) : M unit :=
  bind_int id ;;;
  bind_int d ;;;
  fun c =>
    if largest_rowid (view c) <? max_int64
    then (Return tt,
          record (InsertEvent id d why now)
                 (write_view (insert_history id d why now (view c)) c))
    else (Raise OperationalError, c).

(** [conn.commit()] and [conn.close()] *)
Definition commit : M unit :=
  fun c => (Return tt,
            record Commit {| disk := view c; txn := None;
                             journal := journal c; disk_trace := disk_trace c |}).

Definition close : M unit :=
  fun c => (Return tt,
            record Close {| disk := disk c; txn := None;
                            journal := journal c; disk_trace := disk_trace c |}).

(** ** The tools *)

Definition newline : string := String (ascii_of_nat 10) EmptyString.

(** The strings the tools return (the f-strings of the source). *)
Definition msg_not_found (name : string) : string :=
  "'" ++ name ++ "'(을)를 찾을 수 없습니다.".

Definition msg_insufficient (stock : Z) : string :=
  "재고 부족! 현재 재고: " ++ show_Z stock ++ "개".

Definition msg_changed (name : string) (stock new_stock d : Z)
    (why : option string) : string :=
  "'" ++ name ++ "' 재고가 " ++ show_Z stock ++ "개 → " ++ show_Z new_stock
    ++ "개로 변경되었습니다. (변동: " ++ show_Z d ++ ", 사유: "
    ++ str_or why "-" ++ " )".

Definition msg_price_stock (name : string) (p s : Z) : string :=
  name ++ " | 가격: " ++ show_Z p ++ "원 | 재고: " ++ show_Z s ++ "개".

Definition msg_invalid_date : string :=
  "날짜 형식이 잘못되었습니다. YYYY-MM-DD로 입력하세요.".

Definition msg_no_history (date : string) : string :=
  date ++ "의 재고 변동 내역이 없습니다.".

(** Running a tool: open a connection on the file, run the body; what
    remains afterwards is the committed file. *)
Definition run {A} (m : M A) (db : DB) : Outcome A * Conn := m (connect db).

Definition result_of {A} (r : Outcome A * Conn) : Outcome A := fst r.
Definition store_of {A} (r : Outcome A * Conn) : DB := disk (snd r).
Definition journal_of {A} (r : Outcome A * Conn) : list Stmt := journal (snd r).
(** Every state of the file from the call to its end. *)
Definition states_of {A} (db : DB) (r : Outcome A * Conn) : list DB :=
  db :: disk_trace (snd r).

(** [get_item_stock_price] *)
Definition select_price_stock (name : string) : M (option (Z * Z)) :=
  fun c =>
    (Return (option_map (fun i => (price i, stock i)) (find_item name (view c))),
     record (SelectItem name) c).

Definition get_item_stock_price_body (name : string) : M string :=
  row <- select_price_stock name ;;
  close ;;;
  match row with
  | Some (p, s) => ret (msg_price_stock name p s)
  | None => ret (msg_not_found name)
  end.

Definition get_item_stock_price (name : string) (db : DB) :=
  run (get_item_stock_price_body name) db.

(** [change_item_stock]; [now] is the reading of the clock on line 93. *)
Definition change_item_stock_body (name : string) (d : Z)
    (why : option string) (now : string) : M string :=
  row <- select_item name ;;
  match row with
  | None =>
      close ;;;
      ret (msg_not_found name)
  | Some (id, s) =>
      let new_stock := s + d in
      if new_stock <? 0 then
        close ;;;
        ret (msg_insufficient s)
      else
        update_stock new_stock now id ;;;
        insert_event id d (str_or why "") now ;;;
        commit ;;;
        close ;;;
        ret (msg_changed name s new_stock d why)
  end.

Definition change_item_stock (name : string) (d : Z) (why : option string)
    (now : string) (db : DB) : Outcome string * Conn :=
  run (change_item_stock_body name d why now) db.

(** ** The history query *)

(** One row of the SELECT on lines 112-118: [r[0]] .. [r[3]]. *)
Record HistoryRow := mkRow {
  r_name : string;
  r_delta : Z;
  r_reason : option string;
  r_created_at : string
}.

(** [FROM stock_history JOIN items ON stock_history.item_id = items.id] *)
Definition join_event (its : list Item) (h : StockEvent) : list HistoryRow :=
  map (fun i => {| r_name := item_name i; r_delta := delta h;
                   r_reason := reason h; r_created_at := ev_created_at h |})
      (filter (fun i => ev_item_id h =? item_id i) its).

Definition joined (db : DB) : list HistoryRow :=
  flat_map (join_event (items db)) (stock_history db).

(** [x BETWEEN lo AND hi] on TEXT values: bytewise comparison, both ends
    included. *)
Definition between (lo hi x : string) : bool :=
  (lo <=? x)%string && (x <=? hi)%string.

(** [ORDER BY stock_history.created_at ASC] *)
Fixpoint insert_row (r : HistoryRow) (rs : list HistoryRow) : list HistoryRow :=
  match rs with
  | [] => [r]
  | r' :: rs' =>
      if (r_created_at r <=? r_created_at r')%string
      then r :: r' :: rs'
      else r' :: insert_row r rs'
  end.

Fixpoint order_by_created_at (rs : list HistoryRow) : list HistoryRow :=
  match rs with
  | [] => []
  | r :: rs' => insert_row r (order_by_created_at rs')
  end.

Definition query_events_in_range (lo hi : string) (db : DB) : list HistoryRow :=
  order_by_created_at
    (filter (fun r => between lo hi (r_created_at r)) (joined db)).

Definition select_history (lo hi : string) : M (list HistoryRow) :=
  fun c => (Return (query_events_in_range lo hi (view c)),
            record (SelectHistory lo hi) c).

(** The list comprehension on line 123. *)
Definition format_row (r : HistoryRow) : string :=
  "[" ++ r_created_at r ++ "] " ++ r_name r ++ " | 변화량: "
    ++ show_Z (r_delta r) ++ " | 사유: " ++ str_or (r_reason r) "-".

(** The calendar library, as far as the program uses it.  [parse] is [None]
    where [pendulum.parse(date)] raises or yields an object without day
    boundaries, so that the [try] block takes its [except] branch. *)
Class Calendar := {
  DateTime : Type;
  parse : string -> option DateTime;
  start_of_day : DateTime -> DateTime;
  end_of_day : DateTime -> DateTime;
  to_datetime_string : DateTime -> string
}.

Section History.
Context {cal : Calendar}.

(** The [try] block on lines 107-111. *)
Definition day_range (date : string) : option (string * string) :=
  match parse date with
  | None => None
  | Some d1 =>
      let lo := to_datetime_string (start_of_day d1) in
      match parse date with
      | None => None
      | Some d2 => Some (lo, to_datetime_string (end_of_day d2))
      end
  end.

Definition history_lines (rows : list HistoryRow) : list string :=
  map format_row rows.

Definition get_stock_history_by_date_body (date : string) : M string :=
  match day_range date with
  | None => ret msg_invalid_date
  | Some (lo, hi) =>
      rows <- select_history lo hi ;;
      close ;;;
      match rows with
      | [] => ret (msg_no_history date)
      | _ => ret (String.concat newline (history_lines rows))
      end
  end.

Definition get_stock_history_by_date (date : string) (db : DB)
    : Outcome string * Conn :=
  run (get_stock_history_by_date_body date) db.

End History.

(** ** Bootstrap: the seed rows of [init_db] *)

Definition insert_item (name : string) (p s : Z) (now : string) (db : DB) : DB :=
  {| items :=
       (items db ++
        [{| item_id := items_seq db + 1; item_name := name; price := p;
            stock := s; created_at := now; updated_at := now |}])%list;
     stock_history := stock_history db;
     items_seq := items_seq db + 1;
     history_seq := history_seq db |}.

Definition empty_db : DB :=
  {| items := []; stock_history := []; items_seq := 0; history_seq := 0 |}.

Definition init_db (now : string) (db : DB) : DB :=
  match items db with
  | [] => insert_item "키보드" 70000 30 now
            (insert_item "마우스" 25000 50 now
               (insert_item "노트북" 1200000 10 now db))
  | _ => db
  end.

(** ** Notions used to state the properties *)

(** What the schema and the data model promise of a store: INTEGER cells
    hold signed 64-bit values, stock is never negative, [items.id] is a
    primary key, [items.name] is UNIQUE, and every event references an
    item. *)
Definition item_ok (i : Item) : Prop :=
  in_int64 (item_id i) = true /\ 0 <= stock i <= max_int64.

Record store_ok (db : DB) : Prop := mkOk {
  ok_items : Forall item_ok (items db);
  ok_ids : NoDup (map item_id (items db));
  ok_names : NoDup (map item_name (items db));
  ok_refs : Forall (fun h => In (ev_item_id h) (map item_id (items db)))
                   (stock_history db)
}.

(** The sum of the deltas recorded for an item. *)
Definition deltas_of (id : Z) (db : DB) : Z :=
  fold_right Z.add 0
    (map delta (filter (fun h => ev_item_id h =? id) (stock_history db))).

Definition item_by_id (id : Z) (db : DB) : option Item :=
  find (fun i => item_id i =? id) (items db).

Definition stock_by_id (id : Z) (db : DB) : option Z :=
  option_map stock (item_by_id id db).

(** A sequence of calls of [change_item_stock], each with its clock. *)
Record Call := mkCall {
  call_name : string;
  call_delta : Z;
  call_reason : option string;
  call_now : string
}.

Definition do_call (db : DB) (c : Call) : DB :=
  store_of (change_item_stock (call_name c) (call_delta c) (call_reason c)
                              (call_now c) db).

Definition run_calls (cs : list Call) (db : DB) : DB := fold_left do_call cs db.

(** The event a successful adjustment appends, and the store with both of
    its writes applied. *)
Definition new_event (i : Item) (d : Z) (why : option string) (now : string)
    (db : DB) : StockEvent :=
  {| ev_id := largest_rowid db + 1; ev_item_id := item_id i; delta := d;
     reason := Some (str_or why ""); ev_created_at := now |}.

Definition adjusted (i : Item) (d : Z) (why : option string) (now : string)
    (db : DB) : DB :=
  insert_history (item_id i) d (str_or why "") now
    (update_items (stock i + d) now (item_id i) db).

Definition restocked (i : Item) (d : Z) (now : string) : Item :=
  {| item_id := item_id i; item_name := item_name i; price := price i;
     stock := stock i + d; created_at := created_at i; updated_at := now |}.

(** The row the history query shows for an event: the name is looked up in
    the items as they are when the query runs. *)
Definition name_of_id (id : Z) (db : DB) : string :=
  match item_by_id id db with
  | Some i => item_name i
  | None => ""
  end.

Definition row_of_event (db : DB) (h : StockEvent) : HistoryRow :=
  {| r_name := name_of_id (ev_item_id h) db; r_delta := delta h;
     r_reason := reason h; r_created_at := ev_created_at h |}.

Definition in_range (lo hi : string) (h : StockEvent) : bool :=
  between lo hi (ev_created_at h).

Definition created_le (a b : HistoryRow) : Prop :=
  (r_created_at a <=? r_created_at b)%string = true.

Section Dates.
Context {cal : Calendar}.

(** A date the calendar accepts. *)
Definition well_formed_date (date : string) : Prop :=
  exists d, parse date = Some d.

End Dates.

(** The paths a call of [change_item_stock] can take. *)
Inductive Path (name : string) (d : Z) (why : option string) (now : string)
    (db : DB) : Prop :=
| PNotFound : find_item name db = None -> Path name d why now db
| PInsufficient i :
    find_item name db = Some i -> stock i + d < 0 -> Path name d why now db
| PUpdateRefused i :
    find_item name db = Some i -> 0 <= stock i + d ->
    in_int64 (stock i + d) && in_int64 (item_id i) = false ->
    Path name d why now db
| PInsertRefused i :
    find_item name db = Some i -> 0 <= stock i + d ->
    in_int64 (stock i + d) && in_int64 (item_id i) = true ->
    in_int64 d = false -> Path name d why now db
| PTableFull i :
    find_item name db = Some i -> 0 <= stock i + d ->
    in_int64 (stock i + d) && in_int64 (item_id i) = true ->
    in_int64 d = true -> max_int64 <= largest_rowid db ->
    Path name d why now db
| PSuccess i :
    find_item name db = Some i -> 0 <= stock i + d ->
    in_int64 (stock i + d) && in_int64 (item_id i) = true ->
    in_int64 d = true -> largest_rowid db < max_int64 ->
    Path name d why now db.


(** Reading a string from its end. *)
Definition backwards (s : string) : list ascii := rev (list_ascii_of_string s).


(** ** A calendar and a store to run the tools on

    [iso_day] accepts exactly the ten-character dates [YYYY-MM-DD] with a
    month in 01..12 and a day in 01..31; it is an example of a [Calendar],
    used to evaluate the tools, not a description of the library. *)

Definition is_digit (a : ascii) : bool :=
  let n := nat_of_ascii a in ((48 <=? n) && (n <=? 57))%nat.

Definition digit_val (a : ascii) : nat := (nat_of_ascii a - 48)%nat.

Definition iso_parse (s : string) : option string :=
  match list_ascii_of_string s with
  | [y1; y2; y3; y4; d1; m1; m2; d2; a1; a2] =>
      let mm := (10 * digit_val m1 + digit_val m2)%nat in
      let dd := (10 * digit_val a1 + digit_val a2)%nat in
      if forallb is_digit [y1; y2; y3; y4; m1; m2; a1; a2]
         && Ascii.eqb d1 "-" && Ascii.eqb d2 "-"
         && (1 <=? mm)%nat && (mm <=? 12)%nat
         && (1 <=? dd)%nat && (dd <=? 31)%nat
      then Some s else None
  | _ => None
  end.

Definition iso_day : Calendar :=
  {| DateTime := string;
     parse := iso_parse;
     start_of_day := fun d => substring 0 10 d ++ " 00:00:00";
     end_of_day := fun d => substring 0 10 d ++ " 23:59:59";
     to_datetime_string := fun d => d |}.

Definition shop : DB := init_db "2024-05-01 09:00:00" empty_db.

Definition mouse : Item :=
  {| item_id := 2; item_name := "마우스"; price := 25000; stock := 50;
     created_at := "2024-05-01 09:00:00"; updated_at := "2024-05-01 09:00:00" |}.

Definition sale_time : string := "2024-05-02 10:00:00".

Definition shop_after_sale : DB :=
  store_of (change_item_stock "마우스" (-5) (Some "sale") sale_time shop).

Definition busy_day : list Call :=
  [ {| call_name := "마우스"; call_delta := -5; call_reason := Some "sale";
       call_now := "2024-05-02 10:00:00" |};
    {| call_name := "마우스"; call_delta := -1000; call_reason := None;
       call_now := "2024-05-02 11:00:00" |};
    {| call_name := "키보드"; call_delta := 7; call_reason := Some "restock";
       call_now := "2024-05-02 12:00:00" |};
    {| call_name := "마우스"; call_delta := 20; call_reason := None;
       call_now := "2024-05-02 13:00:00" |};
    {| call_name := "모니터"; call_delta := 1; call_reason := None;
       call_now := "2024-05-02 14:00:00" |} ].

(** The seeded store with the history counter at its end. *)
Definition full_shop : DB :=
  {| items := items shop; stock_history := stock_history shop;
     items_seq := items_seq shop; history_seq := max_int64 |}.

Definition overdrawn : DB :=
  {| items := [{| item_id := 1; item_name := "외상"; price := 100;
                  stock := -5; created_at := "2024-05-01 09:00:00";
                  updated_at := "2024-05-01 09:00:00" |}];
     stock_history := []; items_seq := 1; history_seq := 0 |}.

(** ** Start-up: the choice of transport (lines 126-142)

    [py_int] stands for Python's [int(str)], [None] where it raises; the
    loop keeps the last port it could read after a [--http] argument. *)

Fixpoint lstrip (c : ascii) (s : string) : string :=
  match s with
  | EmptyString => EmptyString
  | String a s' => if Ascii.eqb a c then lstrip c s' else s
  end.

Inductive Mode :=
| Stdio
| Http (port : Z).

Section Startup.
Variable py_int : string -> option Z.

(** The [for i, arg in enumerate(sys.argv)] loop, on the arguments from
    position [i] on. *)
Fixpoint scan_port (port : Z) (argv : list string) : Z :=
  match argv with
  | [] => port
  | arg :: rest =>
      let port' :=
        if (arg =? "--http")%string then
          match rest with
          | next :: _ =>
              match py_int (lstrip ":" next) with
              | Some p => p
              | None => port
              end
          | [] => port
          end
        else port in
      scan_port port' rest
  end.

Definition select_mode (argv : list string) : Mode :=
  if existsb (fun a => (a =? "--http")%string) argv
  then Http (scan_port 8080 argv)
  else Stdio.

End Startup.

(** What is printed, and the address handed to [mcp.run]. *)
Definition banner (m : Mode) : string :=
  match m with
  | Http p =>
      "[MCP] HTTP 서버 모드로 실행 중... (http://localhost:" ++ show_Z p ++ "/mcp)"
  | Stdio => "[MCP] STDIO 모드로 실행 중..."
  end.

Definition http_address (p : Z) : string := "0.0.0.0:" ++ show_Z p.

(** An integer reader to run the start-up on: plain digit strings only. *)
Fixpoint digits_value (acc : Z) (s : string) : option Z :=
  match s with
  | EmptyString => Some acc
  | String a s' =>
      if is_digit a
      then digits_value (10 * acc + Z.of_nat (digit_val a)) s'
      else None
  end.

Definition decimal_int (s : string) : option Z :=
  match s with
  | EmptyString => None
  | _ => digits_value 0 s
  end.

(** ** Further notions *)

(** What of an item no tool ever writes. *)
Definition identity_of (i : Item) : Z * string * Z * string :=
  (item_id i, item_name i, price i, created_at i).

(** Event ids grow with the insertion order and stay below the counter. *)
Definition events_numbered (db : DB) : Prop :=
  StronglySorted Z.lt (map ev_id (stock_history db))
  /\ Forall (fun h => ev_id h <= history_seq db) (stock_history db).

Definition blank_db (seq : Z) : DB :=
  {| items := []; stock_history := []; items_seq := seq; history_seq := 0 |}.

(** ** Calendar dates in the form the interface asks for *)

Definition is_leap_year (y : nat) : bool :=
  (((y mod 4 =? 0) && negb (y mod 100 =? 0)) || (y mod 400 =? 0))%nat.

Definition days_in_month (y m : nat) : nat :=
  match m with
  | 1 | 3 | 5 | 7 | 8 | 10 | 12 => 31
  | 4 | 6 | 9 | 11 => 30
  | 2 => if is_leap_year y then 29 else 28
  | _ => 0
  end%nat.

Definition valid_ymd (y m d : nat) : bool :=
  ((1 <=? y) && (1 <=? m) && (m <=? 12) && (1 <=? d)
   && (d <=? days_in_month y m))%nat.

Definition number_of (ds : list ascii) : nat :=
  fold_left (fun acc a => (10 * acc + digit_val a)%nat) ds 0%nat.

(** A well-formed calendar date written YYYY-MM-DD: a year from 0001 on, a
    month 01..12 and a day that this month has in this year. *)
Definition is_ymd_date (s : string) : bool :=
  match list_ascii_of_string s with
  | [y1; y2; y3; y4; d1; m1; m2; d2; a1; a2] =>
      forallb is_digit [y1; y2; y3; y4; m1; m2; a1; a2]
      && Ascii.eqb d1 "-" && Ascii.eqb d2 "-"
      && valid_ymd (number_of [y1; y2; y3; y4]) (number_of [m1; m2])
                   (number_of [a1; a2])
  | _ => false
  end.

(** The same date without the dashes (the basic form of ISO 8601). *)
Definition is_basic_date (s : string) : bool :=
  match list_ascii_of_string s with
  | [y1; y2; y3; y4; m1; m2; a1; a2] =>
      forallb is_digit [y1; y2; y3; y4; m1; m2; a1; a2]
      && valid_ymd (number_of [y1; y2; y3; y4]) (number_of [m1; m2])
                   (number_of [a1; a2])
  | _ => false
  end.

Definition extended_of_basic (s : string) : string :=
  substring 0 4 s ++ "-" ++ substring 4 2 s ++ "-" ++ substring 6 2 s.

(** A calendar that reads the two calendar-date forms of ISO 8601, the
    extended YYYY-MM-DD and the basic YYYYMMDD; [pendulum.parse] reads both
    as that day.  It stands for the library on these two forms and refuses
    everything else. *)
Definition iso8601_parse (s : string) : option string :=
  if is_ymd_date s then Some s
  else if is_basic_date s then Some (extended_of_basic s)
  else None.

Definition iso8601_dates : Calendar :=
  {| DateTime := string;
     parse := iso8601_parse;
     start_of_day := fun d => d ++ " 00:00:00";
     end_of_day := fun d => d ++ " 23:59:59";
     to_datetime_string := fun d => d |}.

(** * Properties *)

(** ** Evaluating [change_item_stock] on each of its paths *)

Lemma find_item_none (name : string) (db : DB) :
  (forall i, In i (items db) -> item_name i <> name) ->
  find_item name db = None.
Proof.
  intros H. unfold find_item.
  destruct (find _ (items db)) as [i|] eqn:E; [|reflexivity].
  apply find_some in E. destruct E as [Hin Heq].
  apply String.eqb_eq in Heq. exfalso. exact (H i Hin Heq).
Qed.

Lemma find_item_name (name : string) (db : DB) (i : Item) :
  find_item name db = Some i -> In i (items db) /\ item_name i = name.
Proof.
  unfold find_item. intros E. apply find_some in E.
  destruct E as [Hin Heq]. apply String.eqb_eq in Heq. auto.
Qed.

Lemma run_not_found name d why now db :
  find_item name db = None ->
  change_item_stock name d why now db =
    (Return (msg_not_found name),
     {| disk := db; txn := None; journal := [SelectItem name; Close];
        disk_trace := [db; db] |}).
Proof.
  intros E. unfold change_item_stock, run, change_item_stock_body, bind,
    select_item, view, connect. simpl. rewrite E. reflexivity.
Qed.

Lemma run_insufficient name d why now db i :
  find_item name db = Some i ->
  stock i + d < 0 ->
  change_item_stock name d why now db =
    (Return (msg_insufficient (stock i)),
     {| disk := db; txn := None; journal := [SelectItem name; Close];
        disk_trace := [db; db] |}).
Proof.
  intros E Hneg. unfold change_item_stock, run, change_item_stock_body, bind,
    select_item, view, connect. simpl. rewrite E. simpl.
  apply Z.ltb_lt in Hneg. rewrite Hneg. reflexivity.
Qed.

Lemma run_update_refused name d why now db i :
  find_item name db = Some i ->
  0 <= stock i + d ->
  in_int64 (stock i + d) && in_int64 (item_id i) = false ->
  change_item_stock name d why now db =
    (Raise OverflowError,
     {| disk := db; txn := None; journal := [SelectItem name];
        disk_trace := [db] |}).
Proof.
  intros E Hpos Hbad. unfold change_item_stock, run, change_item_stock_body,
    bind, select_item, view, connect. simpl. rewrite E. simpl.
  apply Z.ltb_ge in Hpos. rewrite Hpos.
  unfold update_stock, bind, bind_int.
  destruct (in_int64 (stock i + d)); simpl in *.
  - rewrite Hbad. reflexivity.
  - reflexivity.
Qed.

Lemma run_insert_refused name d why now db i :
  find_item name db = Some i ->
  0 <= stock i + d ->
  in_int64 (stock i + d) && in_int64 (item_id i) = true ->
  in_int64 d = false ->
  change_item_stock name d why now db =
    (Raise OverflowError,
     {| disk := db;
        txn := Some (update_items (stock i + d) now (item_id i) db);
        journal := [SelectItem name; UpdateStock (stock i + d) now (item_id i)];
        disk_trace := [db; db] |}).
Proof.
  intros E Hpos Hok Hbad. unfold change_item_stock, run,
    change_item_stock_body, bind, select_item, view, connect. simpl.
  rewrite E. simpl. apply Z.ltb_ge in Hpos. rewrite Hpos.
  apply andb_true_iff in Hok. destruct Hok as [H1 H2].
  unfold update_stock, insert_event, bind, bind_int.
  rewrite H1, H2, Hbad. reflexivity.
Qed.

Lemma run_table_full name d why now db i :
  find_item name db = Some i ->
  0 <= stock i + d ->
  in_int64 (stock i + d) && in_int64 (item_id i) = true ->
  in_int64 d = true ->
  max_int64 <= largest_rowid db ->
  change_item_stock name d why now db =
    (Raise OperationalError,
     {| disk := db;
        txn := Some (update_items (stock i + d) now (item_id i) db);
        journal := [SelectItem name; UpdateStock (stock i + d) now (item_id i)];
        disk_trace := [db; db] |}).
Proof.
  intros E Hpos Hok Hd Hfull. unfold change_item_stock, run,
    change_item_stock_body, bind, select_item, view, connect. simpl.
  rewrite E. simpl. apply Z.ltb_ge in Hpos. rewrite Hpos.
  apply andb_true_iff in Hok. destruct Hok as [H1 H2].
  unfold update_stock, insert_event, bind, bind_int.
  rewrite H1, H2, Hd.
  cbn [ret view txn disk write_view record].
  change (largest_rowid (update_items (stock i + d) now (item_id i) db))
    with (largest_rowid db).
  apply Z.ltb_ge in Hfull. rewrite Hfull. reflexivity.
Qed.

Lemma run_success name d why now db i :
  find_item name db = Some i ->
  0 <= stock i + d ->
  in_int64 (stock i + d) && in_int64 (item_id i) = true ->
  in_int64 d = true ->
  largest_rowid db < max_int64 ->
  change_item_stock name d why now db =
    (Return (msg_changed name (stock i) (stock i + d) d why),
     {| disk := adjusted i d why now db;
        txn := None;
        journal := [SelectItem name; UpdateStock (stock i + d) now (item_id i);
                    InsertEvent (item_id i) d (str_or why "") now;
                    Commit; Close];
        disk_trace := [db; db; db; adjusted i d why now db;
                       adjusted i d why now db] |}).
Proof.
  intros E Hpos Hok Hd Hroom. unfold change_item_stock, run,
    change_item_stock_body, bind, select_item, view, connect. simpl.
  rewrite E. simpl. apply Z.ltb_ge in Hpos. rewrite Hpos.
  apply andb_true_iff in Hok. destruct Hok as [H1 H2].
  unfold update_stock, insert_event, bind, bind_int.
  rewrite H1, H2, Hd.
  cbn [ret view txn disk write_view record].
  change (largest_rowid (update_items (stock i + d) now (item_id i) db))
    with (largest_rowid db).
  apply Z.ltb_lt in Hroom. rewrite Hroom. reflexivity.
Qed.

(** The six paths are all there is. *)
Lemma path_cases name d why now db : Path name d why now db.
Proof.
  destruct (find_item name db) as [i|] eqn:E.
  - destruct (Z_lt_ge_dec (stock i + d) 0) as [Hlt|Hge].
    + eapply PInsufficient; eauto.
    + destruct (in_int64 (stock i + d) && in_int64 (item_id i)) eqn:H1.
      * destruct (in_int64 d) eqn:H2.
        -- destruct (Z_lt_ge_dec (largest_rowid db) max_int64) as [Hroom|Hfull].
           ++ eapply PSuccess; eauto; lia.
           ++ eapply PTableFull; eauto; lia.
        -- eapply PInsertRefused; eauto; lia.
      * eapply PUpdateRefused; eauto; lia.
  - apply PNotFound; assumption.
Qed.

(** ** Telling the messages apart *)

Lemma Return_inj {A} (a b : A) : Return a = Return b -> a = b.
Proof. intros H. now injection H. Qed.

Lemma append_cancel_l (s a b : string) : s ++ a = s ++ b -> a = b.
Proof.
  induction s as [|c s IH]; cbn; intros H; [exact H|].
  injection H as H. exact (IH H).
Qed.

Lemma changed_is_not_not_found name s s' d why :
  msg_changed name s s' d why <> msg_not_found name.
Proof.
  unfold msg_changed, msg_not_found. cbn [append]. intros H.
  injection H as H. apply append_cancel_l in H. discriminate H.
Qed.

Lemma insufficient_is_not_not_found s name :
  msg_insufficient s <> msg_not_found name.
Proof. unfold msg_insufficient, msg_not_found. cbn [append]. discriminate. Qed.

Lemma insufficient_is_not_changed s0 name s s' d why :
  msg_insufficient s0 <> msg_changed name s s' d why.
Proof. unfold msg_insufficient, msg_changed. cbn [append]. discriminate. Qed.

(** A change message comes back only from the path that commits. *)
Lemma returned_change_message name d why now db s s' :
  result_of (change_item_stock name d why now db)
  = Return (msg_changed name s s' d why) ->
  exists i, find_item name db = Some i
    /\ change_item_stock name d why now db =
       (Return (msg_changed name (stock i) (stock i + d) d why),
        {| disk := adjusted i d why now db;
           txn := None;
           journal := [SelectItem name;
                       UpdateStock (stock i + d) now (item_id i);
                       InsertEvent (item_id i) d (str_or why "") now;
                       Commit; Close];
           disk_trace := [db; db; db; adjusted i d why now db;
                          adjusted i d why now db] |}).
Proof.
  intros H.
  destruct (path_cases name d why now db)
    as [E | i E Hneg | i E Hpos Hbad | i E Hpos H1 Hbad
        | i E Hpos H1 Hd Hfull | i E Hpos H1 Hd Hroom].
  - rewrite (run_not_found name d why now db E) in H.
    apply Return_inj in H. symmetry in H.
    exfalso. exact (changed_is_not_not_found _ _ _ _ _ H).
  - rewrite (run_insufficient name d why now db i E Hneg) in H.
    apply Return_inj in H.
    exfalso. exact (insufficient_is_not_changed _ _ _ _ _ _ H).
  - rewrite (run_update_refused name d why now db i E Hpos Hbad) in H.
    discriminate H.
  - rewrite (run_insert_refused name d why now db i E Hpos H1 Hbad) in H.
    discriminate H.
  - rewrite (run_table_full name d why now db i E Hpos H1 Hd Hfull) in H.
    discriminate H.
  - exists i. split; [exact E|].
    exact (run_success name d why now db i E Hpos H1 Hd Hroom).
Qed.

(** ** Failure paths of the adjustment *)

(** C5. When no item carries the given name, [change_item_stock] returns the
    not-found message, the only statement it runs is the lookup (no UPDATE,
    INSERT or commit), and the file, hence both relations, is the same at
    every moment of the call and after it. *)
Theorem unknown_name_not_found_no_write
    (name : string) (d : Z) (why : option string) (now : string) (db : DB) :
  (forall i, In i (items db) -> item_name i <> name) ->
  let r := change_item_stock name d why now db in
  result_of r = Return (msg_not_found name)
  /\ store_of r = db
  /\ items (store_of r) = items db
  /\ stock_history (store_of r) = stock_history db
  /\ (forall s, In s (journal_of r) -> is_write s = false)
  /\ (forall st, In st (states_of db r) -> st = db).
Proof.
  intros Hno r. subst r.
  rewrite (run_not_found name d why now db (find_item_none name db Hno)).
  unfold result_of, store_of, journal_of, states_of. simpl.
  repeat split; try reflexivity.
  - intros s [<-|[<-|[]]]; reflexivity.
  - intros st [<-|[<-|[<-|[]]]]; reflexivity.
Qed.

(** C2. When the looked-up item has stock [s] and [s + delta < 0],
    [change_item_stock] returns the insufficient-stock message showing [s],
    runs no write statement at all, and leaves the item's stock and the
    history as they were. *)
Theorem negative_candidate_rejected_unchanged
    (name : string) (d : Z) (why : option string) (now : string) (db : DB)
    (i : Item) :
  find_item name db = Some i ->
  stock i + d < 0 ->
  let r := change_item_stock name d why now db in
  result_of r = Return (msg_insufficient (stock i))
  /\ store_of r = db
  /\ find_item name (store_of r) = Some i
  /\ stock_history (store_of r) = stock_history db
  /\ (forall s, In s (journal_of r) -> is_write s = false)
  /\ (forall st, In st (states_of db r) -> st = db).
Proof.
  intros E Hneg r. subst r.
  rewrite (run_insufficient name d why now db i E Hneg).
  unfold result_of, store_of, journal_of, states_of. simpl.
  repeat split; try reflexivity; try assumption.
  - intros s [<-|[<-|[]]]; reflexivity.
  - intros st [<-|[<-|[<-|[]]]]; reflexivity.
Qed.

(** ** The successful adjustment *)

Lemma in_int64_iff (z : Z) :
  in_int64 z = true <-> - 9223372036854775808 <= z <= 9223372036854775807.
Proof.
  unfold in_int64. rewrite andb_true_iff, !Z.leb_le.
  change min_int64 with (- 9223372036854775808).
  change max_int64 with 9223372036854775807. tauto.
Qed.

Lemma max_int64_value : max_int64 = 9223372036854775807.
Proof. reflexivity. Qed.

Lemma set_stock_name ns now id (x : Item) :
  item_name (set_stock ns now id x) = item_name x.
Proof. unfold set_stock. destruct (item_id x =? id); reflexivity. Qed.

Lemma set_stock_id ns now id (x : Item) :
  item_id (set_stock ns now id x) = item_id x.
Proof. unfold set_stock. destruct (item_id x =? id); reflexivity. Qed.

Lemma set_stock_self (i : Item) (d : Z) (now : string) :
  set_stock (stock i + d) now (item_id i) i = restocked i d now.
Proof. unfold set_stock. rewrite Z.eqb_refl. reflexivity. Qed.

Lemma find_name_map_set_stock name ns now id (its : list Item) :
  find (fun i => (item_name i =? name)%string) (map (set_stock ns now id) its)
  = option_map (set_stock ns now id)
      (find (fun i => (item_name i =? name)%string) its).
Proof.
  induction its as [|x its IH]; simpl; [reflexivity|].
  rewrite set_stock_name.
  destruct (item_name x =? name)%string; [reflexivity | exact IH].
Qed.

Lemma adjusted_effects name d why now db i :
  find_item name db = Some i ->
  find_item name (adjusted i d why now db) = Some (restocked i d now)
  /\ items (adjusted i d why now db)
     = map (set_stock (stock i + d) now (item_id i)) (items db)
  /\ stock_history (adjusted i d why now db)
     = (stock_history db ++ [new_event i d why now db])%list.
Proof.
  intros E. repeat split.
  unfold find_item, adjusted. simpl.
  rewrite find_name_map_set_stock. unfold find_item in E. rewrite E. simpl.
  now rewrite set_stock_self.
Qed.

Lemma item_ok_of_store db name i :
  store_ok db -> find_item name db = Some i -> item_ok i.
Proof.
  intros Hok E. apply find_item_name in E. destruct E as [Hin _].
  pose proof (ok_items db Hok) as HF. rewrite Forall_forall in HF. auto.
Qed.

Lemma ok_binds db name i d :
  store_ok db -> find_item name db = Some i ->
  0 <= stock i + d <= max_int64 ->
  in_int64 (stock i + d) && in_int64 (item_id i) = true /\ in_int64 d = true.
Proof.
  intros Hok E Hr. destruct (item_ok_of_store db name i Hok E) as [Hid Hs].
  rewrite max_int64_value in *.
  rewrite Hid, andb_true_r. split; apply in_int64_iff; lia.
Qed.

(** C4, as the code has it.  In a well-formed store whose history has a
    rowid left, when the looked-up item has stock [s] and
    [0 <= s + delta <= 2^63 - 1], [change_item_stock] returns the message
    showing [s] and [s + delta]; afterwards the item has
    stock [s + delta] and [updated_at = now], and the history is the old one
    followed by exactly one event for that item with the same delta, the same
    [now] as [created_at] and the given reason, or the empty string for an
    absent one. *)
Theorem adjustment_within_int64_succeeds
    (name : string) (d : Z) (why : option string) (now : string) (db : DB)
    (i : Item) :
  store_ok db ->
  largest_rowid db < max_int64 ->
  find_item name db = Some i ->
  0 <= stock i + d <= max_int64 ->
  let r := change_item_stock name d why now db in
  result_of r = Return (msg_changed name (stock i) (stock i + d) d why)
  /\ find_item name (store_of r)
     = Some {| item_id := item_id i; item_name := item_name i;
               price := price i; stock := stock i + d;
               created_at := created_at i; updated_at := now |}
  /\ items (store_of r)
     = map (set_stock (stock i + d) now (item_id i)) (items db)
  /\ stock_history (store_of r)
     = (stock_history db ++
        [{| ev_id := largest_rowid db + 1; ev_item_id := item_id i; delta := d;
            reason := Some (str_or why ""); ev_created_at := now |}])%list.
Proof.
  intros Hok Hroom E Hr r. subst r.
  destruct (ok_binds db name i d Hok E Hr) as [H1 H2].
  rewrite (run_success name d why now db i E (proj1 Hr) H1 H2 Hroom).
  unfold result_of, store_of. cbn [fst snd disk].
  destruct (adjusted_effects name d why now db i E) as (A & B & C).
  repeat split; assumption.
Qed.


(** ** The two writes go together *)

Ltac expose_run :=
  unfold result_of, store_of, journal_of, states_of;
  cbn [fst snd disk journal disk_trace].

(** C3. At every moment of a call, and after it, the file is either as it
    was (neither write) or has the stock update and the new event together.
    When an UPDATE or INSERT was run and the pair was not committed, the call
    ends in an exception, not in a returned message, and the file is as it
    was; a returned message means that nothing was written or that both
    writes were. *)
Theorem adjustment_writes_are_all_or_nothing
    (name : string) (d : Z) (why : option string) (now : string) (db : DB) :
  let r := change_item_stock name d why now db in
  (forall st, In st (states_of db r) ->
     (items st = items db /\ stock_history st = stock_history db)
     \/ (exists i, find_item name db = Some i
         /\ items st = map (set_stock (stock i + d) now (item_id i)) (items db)
         /\ stock_history st
            = (stock_history db ++ [new_event i d why now db])%list))
  /\ ((exists s, In s (journal_of r) /\ is_write s = true) ->
      ~ In Commit (journal_of r) ->
      (exists e, result_of r = Raise e) /\ store_of r = db)
  /\ (forall e, result_of r = Raise e ->
      store_of r = db /\ ~ In Commit (journal_of r))
  /\ (forall msg, result_of r = Return msg ->
      (store_of r = db /\ forall s, In s (journal_of r) -> is_write s = false)
      \/ (exists i, find_item name db = Some i
          /\ store_of r = adjusted i d why now db
          /\ msg = msg_changed name (stock i) (stock i + d) d why)).
Proof.
  intros r. subst r.
  destruct (path_cases name d why now db)
    as [E | i E Hneg | i E Hpos Hbad | i E Hpos Hok Hbad
        | i E Hpos Hok Hd Hfull | i E Hpos Hok Hd Hroom].
  - rewrite (run_not_found name d why now db E).
    expose_run.
    split; [|split; [|split]].
    + intros st [<-|[<-|[<-|[]]]]; left; split; reflexivity.
    + intros [s [[<-|[<-|[]]] Hw]] _; discriminate Hw.
    + intros e He; discriminate He.
    + intros msg _. left. split; [reflexivity|].
      intros s [<-|[<-|[]]]; reflexivity.
  - rewrite (run_insufficient name d why now db i E Hneg).
    expose_run.
    split; [|split; [|split]].
    + intros st [<-|[<-|[<-|[]]]]; left; split; reflexivity.
    + intros [s [[<-|[<-|[]]] Hw]] _; discriminate Hw.
    + intros e He; discriminate He.
    + intros msg _. left. split; [reflexivity|].
      intros s [<-|[<-|[]]]; reflexivity.
  - rewrite (run_update_refused name d why now db i E Hpos Hbad).
    expose_run.
    split; [|split; [|split]].
    + intros st [<-|[<-|[]]]; left; split; reflexivity.
    + intros _ _. split; [exists OverflowError|]; reflexivity.
    + intros e _. split; [reflexivity|]. intros [H|[]]; discriminate H.
    + intros msg He; discriminate He.
  - rewrite (run_insert_refused name d why now db i E Hpos Hok Hbad).
    expose_run.
    split; [|split; [|split]].
    + intros st [<-|[<-|[<-|[]]]]; left; split; reflexivity.
    + intros _ _. split; [exists OverflowError|]; reflexivity.
    + intros e _. split; [reflexivity|]. intros [H|[H|[]]]; discriminate H.
    + intros msg He; discriminate He.
  - rewrite (run_table_full name d why now db i E Hpos Hok Hd Hfull).
    expose_run.
    split; [|split; [|split]].
    + intros st [<-|[<-|[<-|[]]]]; left; split; reflexivity.
    + intros _ _. split; [exists OperationalError|]; reflexivity.
    + intros e _. split; [reflexivity|]. intros [H|[H|[]]]; discriminate H.
    + intros msg He; discriminate He.
  - rewrite (run_success name d why now db i E Hpos Hok Hd Hroom).
    expose_run.
    destruct (adjusted_effects name d why now db i E) as (A & B & C).
    split; [|split; [|split]].
    + intros st [<-|[<-|[<-|[<-|[<-|[<-|[]]]]]]];
        solve [ left; split; reflexivity
              | right; exists i; repeat split; assumption ].
    + intros _ Hc. exfalso. apply Hc. simpl. tauto.
    + intros e He; discriminate He.
    + intros msg Hm. right. exists i. injection Hm as <-.
      repeat split. exact E.
Qed.

(** ** What every call preserves *)

Lemma map_id_set_stock ns now id (its : list Item) :
  map item_id (map (set_stock ns now id) its) = map item_id its.
Proof.
  rewrite map_map. apply map_ext. intros x. apply set_stock_id.
Qed.

Lemma map_name_set_stock ns now id (its : list Item) :
  map item_name (map (set_stock ns now id) its) = map item_name its.
Proof.
  rewrite map_map. apply map_ext. intros x. apply set_stock_name.
Qed.

(** After a call the store is the one before it or the adjusted one. *)
Lemma store_after_call name d why now db :
  store_of (change_item_stock name d why now db) = db
  \/ exists i, find_item name db = Some i
       /\ 0 <= stock i + d
       /\ in_int64 (stock i + d) = true
       /\ store_of (change_item_stock name d why now db)
          = adjusted i d why now db.
Proof.
  destruct (path_cases name d why now db)
    as [E | i E Hneg | i E Hpos Hbad | i E Hpos Hok Hbad
        | i E Hpos Hok Hd Hfull | i E Hpos Hok Hd Hroom].
  - left. now rewrite (run_not_found name d why now db E).
  - left. now rewrite (run_insufficient name d why now db i E Hneg).
  - left. now rewrite (run_update_refused name d why now db i E Hpos Hbad).
  - left. now rewrite (run_insert_refused name d why now db i E Hpos Hok Hbad).
  - left. now rewrite (run_table_full name d why now db i E Hpos Hok Hd Hfull).
  - right. exists i.
    rewrite (run_success name d why now db i E Hpos Hok Hd Hroom).
    apply andb_true_iff in Hok. destruct Hok as [H1 _]. now repeat split.
Qed.

Lemma adjusted_ok name d why now db i :
  store_ok db -> find_item name db = Some i ->
  0 <= stock i + d -> in_int64 (stock i + d) = true ->
  store_ok (adjusted i d why now db).
Proof.
  intros [Hi Hids Hnames Hrefs] E Hpos Hin.
  apply find_item_name in E. destruct E as [Hmem _].
  apply in_int64_iff in Hin.
  constructor; unfold adjusted; cbn [items stock_history insert_history update_items].
  - rewrite Forall_forall in *. intros x Hx.
    apply in_map_iff in Hx. destruct Hx as [y [<- Hy]].
    specialize (Hi y Hy). unfold set_stock.
    destruct (item_id y =? item_id i); [|exact Hi].
    destruct Hi as [Hid _]. split; [exact Hid|]. cbn [stock].
    rewrite max_int64_value. lia.
  - now rewrite map_id_set_stock.
  - now rewrite map_name_set_stock.
  - rewrite map_id_set_stock. apply Forall_app. split; [exact Hrefs|].
    constructor; [|constructor]. cbn [ev_item_id].
    apply in_map. exact Hmem.
Qed.

(** The well-formedness of the store is an invariant of the tool. *)
Lemma change_item_stock_keeps_store_ok name d why now db :
  store_ok db -> store_ok (store_of (change_item_stock name d why now db)).
Proof.
  intros Hok.
  destruct (store_after_call name d why now db) as [->|(i & E & Hpos & Hin & ->)].
  - exact Hok.
  - eapply adjusted_ok; eassumption.
Qed.

Lemma get_item_stock_price_reads_only name db :
  store_of (get_item_stock_price name db) = db.
Proof.
  unfold get_item_stock_price, run, get_item_stock_price_body, bind,
    select_price_stock, close. cbn.
  destruct (find_item name db) as [i|]; reflexivity.
Qed.

Lemma run_calls_keep_store_ok cs db :
  store_ok db -> store_ok (run_calls cs db).
Proof.
  revert db. induction cs as [|c cs IH]; intros db Hok; [exact Hok|].
  apply IH. apply change_item_stock_keeps_store_ok. exact Hok.
Qed.

Lemma shop_ok : store_ok shop.
Proof.
  constructor; cbn.
  - repeat constructor; cbn; try discriminate; try lia.
  - repeat constructor; cbn; intuition discriminate.
  - repeat constructor; cbn; intuition discriminate.
  - constructor.
Qed.

(** ** Stock equals the initial stock plus the recorded deltas *)

Lemma deltas_of_insert id id' d why now db :
  deltas_of id (insert_history id' d why now db)
  = deltas_of id db + (if id' =? id then d else 0).
Proof.
  unfold deltas_of, insert_history. cbn [stock_history].
  rewrite filter_app, map_app. cbn [filter ev_item_id].
  induction (map delta (filter (fun h => ev_item_id h =? id) (stock_history db)))
    as [|x l IH]; cbn [app fold_right].
  - destruct (id' =? id); cbn; lia.
  - rewrite IH. lia.
Qed.

Lemma deltas_of_update id ns now id' db :
  deltas_of id (update_items ns now id' db) = deltas_of id db.
Proof. reflexivity. Qed.

Lemma item_by_id_update id ns now id' db :
  item_by_id id (update_items ns now id' db)
  = option_map (set_stock ns now id') (item_by_id id db).
Proof.
  unfold item_by_id, update_items. cbn [items].
  induction (items db) as [|x its IH]; cbn [map find]; [reflexivity|].
  rewrite set_stock_id.
  destruct (item_id x =? id); [reflexivity | exact IH].
Qed.

Lemma item_by_id_found id db x :
  item_by_id id db = Some x -> In x (items db) /\ item_id x = id.
Proof.
  unfold item_by_id. intros E. apply find_some in E.
  destruct E as [Hin Heq]. apply Z.eqb_eq in Heq. auto.
Qed.

Lemma item_by_id_unique db x :
  NoDup (map item_id (items db)) -> In x (items db) ->
  item_by_id (item_id x) db = Some x.
Proof.
  unfold item_by_id. induction (items db) as [|y its IH]; intros Hnd Hin.
  - destruct Hin.
  - cbn [map] in Hnd. inversion Hnd as [|? ? Hnotin Hnd']; subst.
    cbn [find]. destruct (item_id y =? item_id x) eqn:Eq.
    + destruct Hin as [->|Hin]; [reflexivity|].
      apply Z.eqb_eq in Eq. exfalso. apply Hnotin. rewrite Eq.
      apply in_map. exact Hin.
    + destruct Hin as [->|Hin]; [rewrite Z.eqb_refl in Eq; discriminate|].
      apply IH; assumption.
Qed.

(** One call moves the stock of an item by what it adds to its deltas. *)
Lemma do_call_balance db c id s :
  NoDup (map item_id (items db)) ->
  stock_by_id id db = Some s ->
  stock_by_id id (do_call db c)
  = Some (s + (deltas_of id (do_call db c) - deltas_of id db)).
Proof.
  intros Hnd Hs. unfold do_call.
  destruct (store_after_call (call_name c) (call_delta c) (call_reason c)
              (call_now c) db) as [->|(i & E & _ & _ & ->)].
  - rewrite Hs. f_equal. lia.
  - unfold adjusted. rewrite deltas_of_insert, deltas_of_update.
    unfold stock_by_id in *. unfold insert_history at 1.
    change (item_by_id id _) with
      (item_by_id id (update_items (stock i + call_delta c) (call_now c)
                        (item_id i) db)).
    rewrite item_by_id_update.
    destruct (item_by_id id db) as [x|] eqn:Ex; [|discriminate].
    cbn [option_map] in *. injection Hs as <-.
    apply item_by_id_found in Ex. destruct Ex as [Hx Hid].
    apply find_item_name in E. destruct E as [Hi _].
    unfold set_stock. destruct (item_id x =? item_id i) eqn:Eq.
    + apply Z.eqb_eq in Eq.
      assert (x = i).
      { pose proof (item_by_id_unique db x Hnd Hx) as A.
        pose proof (item_by_id_unique db i Hnd Hi) as B.
        rewrite Eq in A. rewrite A in B. now injection B. }
      subst x. rewrite <- Hid, Z.eqb_refl. cbn [stock]. f_equal. lia.
    + rewrite Hid in Eq. rewrite Z.eqb_sym in Eq. rewrite Eq. f_equal. lia.
Qed.

Lemma do_call_ids db c :
  map item_id (items (do_call db c)) = map item_id (items db).
Proof.
  unfold do_call.
  destruct (store_after_call (call_name c) (call_delta c) (call_reason c)
              (call_now c) db) as [->|(i & _ & _ & _ & ->)]; [reflexivity|].
  unfold adjusted. cbn [items insert_history update_items].
  apply map_id_set_stock.
Qed.

Lemma run_calls_balance cs db id s :
  NoDup (map item_id (items db)) ->
  stock_by_id id db = Some s ->
  stock_by_id id (run_calls cs db)
  = Some (s + (deltas_of id (run_calls cs db) - deltas_of id db)).
Proof.
  revert db s. induction cs as [|c cs IH]; intros db s Hnd Hs.
  - cbn. rewrite Hs. f_equal. lia.
  - cbn [run_calls fold_left].
    change (fold_left do_call cs (do_call db c))
      with (run_calls cs (do_call db c)).
    rewrite (IH (do_call db c) _ ltac:(rewrite do_call_ids; exact Hnd)
               (do_call_balance db c id s Hnd Hs)).
    f_equal. lia.
Qed.

Lemma deltas_of_none id db :
  (forall h, In h (stock_history db) -> ev_item_id h <> id) ->
  deltas_of id db = 0.
Proof.
  unfold deltas_of. induction (stock_history db) as [|h l IH]; intros H.
  - reflexivity.
  - cbn [filter]. destruct (ev_item_id h =? id) eqn:Eq.
    + apply Z.eqb_eq in Eq. exfalso. apply (H h); [left; reflexivity|exact Eq].
    + apply IH. intros h' Hh'. apply H. right. exact Hh'.
Qed.

(** C1. Take an item as it is created: present in a store whose ids are
    unique, with no event recorded for it yet.  After any sequence of
    [change_item_stock] calls (on it or on other names, accepted or refused)
    its stock is its initial stock plus the sum of the deltas of all the
    events recorded for it. *)
Theorem stock_is_initial_plus_recorded_deltas
    (db0 : DB) (i0 : Item) (cs : list Call) :
  NoDup (map item_id (items db0)) ->
  In i0 (items db0) ->
  (forall h, In h (stock_history db0) -> ev_item_id h <> item_id i0) ->
  stock_by_id (item_id i0) (run_calls cs db0)
  = Some (stock i0 + deltas_of (item_id i0) (run_calls cs db0)).
Proof.
  intros Hnd Hin Hnew.
  assert (Hs : stock_by_id (item_id i0) db0 = Some (stock i0)).
  { unfold stock_by_id. now rewrite (item_by_id_unique db0 i0 Hnd Hin). }
  rewrite (run_calls_balance cs db0 (item_id i0) (stock i0) Hnd Hs).
  rewrite (deltas_of_none (item_id i0) db0 Hnew). f_equal. lia.
Qed.

(** ** Strings returned by the history tool *)

Lemma list_ascii_of_string_app (s t : string) :
  list_ascii_of_string (s ++ t)
  = (list_ascii_of_string s ++ list_ascii_of_string t)%list.
Proof. induction s as [|a s IH]; cbn; [reflexivity | now rewrite IH]. Qed.

Lemma backwards_app (s t : string) :
  backwards (s ++ t) = (backwards t ++ backwards s)%list.
Proof.
  unfold backwards. now rewrite list_ascii_of_string_app, rev_app_distr.
Qed.

Lemma no_history_is_not_invalid_date (date : string) :
  msg_no_history date <> msg_invalid_date.
Proof.
  intros H. apply (f_equal backwards) in H.
  unfold msg_no_history in H. rewrite backwards_app in H.
  cbv [backwards msg_invalid_date] in H. cbn in H. discriminate H.
Qed.

Lemma no_history_is_not_empty (date : string) : msg_no_history date <> "".
Proof.
  unfold msg_no_history. destruct date; cbn; discriminate.
Qed.

Lemma lines_start_with_bracket (r : HistoryRow) (rs : list HistoryRow) :
  exists rest,
    String.concat newline (map format_row (r :: rs)) = String "[" rest.
Proof.
  cbn [map String.concat]. destruct (map format_row rs); eexists; reflexivity.
Qed.

Lemma lines_are_not_invalid_date (r : HistoryRow) (rs : list HistoryRow) :
  String.concat newline (map format_row (r :: rs)) <> msg_invalid_date.
Proof.
  destruct (lines_start_with_bracket r rs) as [rest ->].
  unfold msg_invalid_date. intros H. discriminate H.
Qed.

Lemma format_row_dash (r : HistoryRow) :
  r_reason r = None \/ r_reason r = Some "" ->
  format_row r
  = "[" ++ r_created_at r ++ "] " ++ r_name r ++ " | 변화량: "
      ++ show_Z (r_delta r) ++ " | 사유: -".
Proof. unfold format_row. intros [-> | ->]; reflexivity. Qed.

(** ** The ORDER BY *)

Lemma insert_row_perm (r : HistoryRow) (rs : list HistoryRow) :
  Permutation (insert_row r rs) (r :: rs).
Proof.
  induction rs as [|x rs IH]; cbn [insert_row]; [apply Permutation_refl|].
  destruct (r_created_at r <=? r_created_at x)%string.
  - apply Permutation_refl.
  - eapply perm_trans; [apply perm_skip, IH | apply perm_swap].
Qed.

Lemma order_by_perm (rs : list HistoryRow) :
  Permutation (order_by_created_at rs) rs.
Proof.
  induction rs as [|x rs IH]; cbn [order_by_created_at]; [constructor|].
  eapply perm_trans; [apply insert_row_perm | apply perm_skip, IH].
Qed.

Lemma insert_row_sorted (r : HistoryRow) (rs : list HistoryRow) :
  Sorted created_le rs -> Sorted created_le (insert_row r rs).
Proof.
  induction rs as [|x rs IH]; intros Hs; cbn [insert_row].
  - repeat constructor.
  - destruct (r_created_at r <=? r_created_at x)%string eqn:E.
    + constructor; [exact Hs | constructor; exact E].
    + assert (Hx : created_le x r).
      { unfold created_le.
        destruct (String.leb_total (r_created_at r) (r_created_at x)) as [H|H];
          [rewrite H in E; discriminate | exact H]. }
      inversion Hs as [|? ? Hs' Hhd]; subst.
      constructor; [apply IH; exact Hs'|].
      destruct rs as [|y rs]; cbn [insert_row].
      * constructor. exact Hx.
      * destruct (r_created_at r <=? r_created_at y)%string;
          constructor; [exact Hx | now inversion Hhd].
Qed.

Lemma order_by_sorted (rs : list HistoryRow) :
  Sorted created_le (order_by_created_at rs).
Proof.
  induction rs as [|x rs IH]; cbn [order_by_created_at];
    [constructor | now apply insert_row_sorted].
Qed.

(** ** The JOIN *)

Lemma join_none (its : list Item) (id : Z) :
  ~ In id (map item_id its) -> filter (fun i => id =? item_id i) its = [].
Proof.
  induction its as [|y its IH]; intros Hn; [reflexivity|].
  cbn [filter]. destruct (id =? item_id y) eqn:E.
  - apply Z.eqb_eq in E. exfalso. apply Hn. left. symmetry. exact E.
  - apply IH. intros H. apply Hn. right. exact H.
Qed.

Lemma join_one (its : list Item) (id : Z) :
  NoDup (map item_id its) -> In id (map item_id its) ->
  exists x, filter (fun i => id =? item_id i) its = [x]
            /\ find (fun i => item_id i =? id) its = Some x.
Proof.
  induction its as [|y its IH]; intros Hnd Hin; [destruct Hin|].
  cbn [map] in Hnd. inversion Hnd as [|? ? Hnotin Hnd']; subst.
  cbn [filter find]. rewrite (Z.eqb_sym id (item_id y)).
  destruct (item_id y =? id) eqn:E.
  - apply Z.eqb_eq in E. exists y. split; [|reflexivity]. f_equal.
    apply join_none. rewrite <- E. exact Hnotin.
  - destruct Hin as [Hy|Hin]; [cbn in Hy; apply Z.eqb_neq in E; contradiction|].
    apply IH; assumption.
Qed.

Lemma join_event_resolved (db : DB) (h : StockEvent) :
  NoDup (map item_id (items db)) ->
  In (ev_item_id h) (map item_id (items db)) ->
  join_event (items db) h = [row_of_event db h].
Proof.
  intros Hnd Hin. unfold join_event, row_of_event, name_of_id, item_by_id.
  destruct (join_one (items db) (ev_item_id h) Hnd Hin) as [x [-> ->]].
  reflexivity.
Qed.

Lemma joined_resolved (db : DB) :
  store_ok db -> joined db = map (row_of_event db) (stock_history db).
Proof.
  intros [_ Hnd _ Hrefs]. unfold joined.
  induction (stock_history db) as [|h hs IH]; [reflexivity|].
  inversion Hrefs as [|? ? Hh Hrest]; subst.
  cbn [flat_map map]. rewrite (join_event_resolved db h Hnd Hh), IH by assumption.
  reflexivity.
Qed.

Lemma filter_rows_of_events lo hi (db : DB) (hs : list StockEvent) :
  filter (fun r => between lo hi (r_created_at r)) (map (row_of_event db) hs)
  = map (row_of_event db) (filter (in_range lo hi) hs).
Proof.
  induction hs as [|h hs IH]; [reflexivity|].
  cbn [map filter]. unfold in_range at 1. cbn [row_of_event r_created_at].
  destruct (between lo hi (ev_created_at h)); cbn [map]; now rewrite IH.
Qed.

Lemma joined_created_at (db : DB) (r : HistoryRow) :
  In r (joined db) ->
  exists h, In h (stock_history db) /\ r_created_at r = ev_created_at h.
Proof.
  unfold joined. intros Hr. apply in_flat_map in Hr.
  destruct Hr as [h [Hh Hr]]. exists h. split; [exact Hh|].
  unfold join_event in Hr. apply in_map_iff in Hr.
  destruct Hr as [i [<- _]]. reflexivity.
Qed.

Lemma filter_nothing {A} (f : A -> bool) (l : list A) :
  (forall x, In x l -> f x = false) -> filter f l = [].
Proof.
  induction l as [|x l IH]; intros H; [reflexivity|].
  cbn [filter]. rewrite (H x (or_introl eq_refl)).
  apply IH. intros y Hy. apply H. right. exact Hy.
Qed.

(** ** The history tool *)

Section HistoryProperties.
Context {cal : Calendar}.

Lemma day_range_parsed (date : string) (dt : DateTime) :
  parse date = Some dt ->
  day_range date = Some (to_datetime_string (start_of_day dt),
                         to_datetime_string (end_of_day dt)).
Proof. intros E. unfold day_range. rewrite E. reflexivity. Qed.

Lemma day_range_refused (date : string) :
  ~ well_formed_date date -> day_range date = None.
Proof.
  intros H. unfold day_range. destruct (parse date) as [dt|] eqn:E;
    [exfalso; apply H; exists dt; exact E | reflexivity].
Qed.

Lemma run_history_invalid (date : string) (db : DB) :
  day_range date = None ->
  get_stock_history_by_date date db = (Return msg_invalid_date, connect db).
Proof.
  intros E. unfold get_stock_history_by_date, run,
    get_stock_history_by_date_body. rewrite E. reflexivity.
Qed.

Lemma run_history_parsed (date lo hi : string) (db : DB) :
  day_range date = Some (lo, hi) ->
  get_stock_history_by_date date db =
    (Return (match query_events_in_range lo hi db with
             | [] => msg_no_history date
             | rows => String.concat newline (history_lines rows)
             end),
     {| disk := db; txn := None; journal := [SelectHistory lo hi; Close];
        disk_trace := [db; db] |}).
Proof.
  intros E. unfold get_stock_history_by_date, run,
    get_stock_history_by_date_body. rewrite E.
  unfold bind, select_history, close, view, connect. cbn.
  destruct (query_events_in_range lo hi db); reflexivity.
Qed.

Lemma get_stock_history_by_date_reads_only (date : string) (db : DB) :
  store_of (get_stock_history_by_date date db) = db.
Proof.
  destruct (day_range date) as [[lo hi]|] eqn:E.
  - now rewrite (run_history_parsed date lo hi db E).
  - now rewrite (run_history_invalid date db E).
Qed.

(** The invalid-date message is returned exactly when the calendar does
    not accept the string; in that case no statement has been run on the
    connection and the file is as it was, throughout. *)
Theorem invalid_date_iff_not_well_formed (date : string) (db : DB) :
  let r := get_stock_history_by_date date db in
  (result_of r = Return msg_invalid_date <-> ~ well_formed_date date)
  /\ (~ well_formed_date date ->
      journal_of r = [] /\ store_of r = db /\ states_of db r = [db]).
Proof.
  intros r. subst r. split; [split|].
  - intros Hres [dt Hdt].
    rewrite (run_history_parsed date _ _ db (day_range_parsed date dt Hdt))
      in Hres.
    unfold result_of in Hres. cbn [fst] in Hres.
    destruct (query_events_in_range _ _ db) as [|r0 rows].
    + injection Hres as Hres. exact (no_history_is_not_invalid_date date Hres).
    + injection Hres as Hres.
      exact (lines_are_not_invalid_date r0 rows Hres).
  - intros Hbad.
    now rewrite (run_history_invalid date db (day_range_refused date Hbad)).
  - intros Hbad.
    rewrite (run_history_invalid date db (day_range_refused date Hbad)).
    repeat split.
Qed.

(** C6, as the code has it.  The calendar library decides: the tool
    returns the invalid-date message exactly when the library refuses the
    string.  With a library that reads every well-formed YYYY-MM-DD date, a
    well-formed date is never answered with the invalid-date message, and
    when that message is returned the input was not a well-formed
    YYYY-MM-DD date, no statement has been run and the file is as it was,
    throughout.  Nothing is said of other strings the library reads. *)
Theorem invalid_date_only_for_refused_input (date : string) (db : DB) :
  (forall s, is_ymd_date s = true -> exists d, parse s = Some d) ->
  let r := get_stock_history_by_date date db in
  (result_of r = Return msg_invalid_date <-> parse date = None)
  /\ (is_ymd_date date = true -> result_of r <> Return msg_invalid_date)
  /\ (result_of r = Return msg_invalid_date ->
      is_ymd_date date = false
      /\ journal_of r = [] /\ store_of r = db /\ states_of db r = [db]).
Proof.
  intros Hlib r. subst r.
  assert (Hiff : result_of (get_stock_history_by_date date db)
                 = Return msg_invalid_date <-> parse date = None).
  { split.
    - intros Hres. destruct (parse date) as [dt|] eqn:Hdt; [|reflexivity].
      exfalso.
      rewrite (run_history_parsed date _ _ db (day_range_parsed date dt Hdt))
        in Hres.
      unfold result_of in Hres. cbn [fst] in Hres. apply Return_inj in Hres.
      destruct (query_events_in_range _ _ db) as [|r0 rows].
      + exact (no_history_is_not_invalid_date date Hres).
      + exact (lines_are_not_invalid_date r0 rows Hres).
    - intros Hnone.
      assert (Hbad : ~ well_formed_date date).
      { intros [dt Hdt]. rewrite Hnone in Hdt. discriminate Hdt. }
      now rewrite (run_history_invalid date db (day_range_refused date Hbad)). }
  split; [exact Hiff|]. split.
  - intros Hymd Hres. apply Hiff in Hres.
    destruct (Hlib date Hymd) as [dt Hdt]. rewrite Hres in Hdt.
    discriminate Hdt.
  - intros Hres. apply Hiff in Hres. split.
    + destruct (is_ymd_date date) eqn:Hymd; [|reflexivity].
      destruct (Hlib date Hymd) as [dt Hdt]. rewrite Hres in Hdt.
      discriminate Hdt.
    + assert (Hbad : ~ well_formed_date date).
      { intros [dt Hdt]. rewrite Hres in Hdt. discriminate Hdt. }
      rewrite (run_history_invalid date db (day_range_refused date Hbad)).
      repeat split.
Qed.

(** C8. For a date the calendar accepts, when no event of the history has
    its [created_at] between the start and the end of that day (both
    included), the tool returns the no-history message for that date: a
    string of its own, which is neither the empty join of no lines nor the
    invalid-date message; the store is not changed. *)
Theorem empty_day_returns_no_history_signal
    (date : string) (dt : DateTime) (db : DB) :
  parse date = Some dt ->
  (forall h, In h (stock_history db) ->
     in_range (to_datetime_string (start_of_day dt))
              (to_datetime_string (end_of_day dt)) h = false) ->
  let r := get_stock_history_by_date date db in
  result_of r = Return (msg_no_history date)
  /\ msg_no_history date <> String.concat newline (history_lines [])
  /\ msg_no_history date <> msg_invalid_date
  /\ store_of r = db.
Proof.
  intros Hdt Hnone r. subst r.
  rewrite (run_history_parsed date _ _ db (day_range_parsed date dt Hdt)).
  unfold query_events_in_range. rewrite filter_nothing.
  - unfold result_of, store_of. cbn.
    repeat split.
    + apply no_history_is_not_empty.
    + apply no_history_is_not_invalid_date.
  - intros x Hx. destruct (joined_created_at db x Hx) as [h [Hh ->]].
    apply (Hnone h Hh).
Qed.

(** C9. In a well-formed store, for a date the calendar accepts and with at
    least one event whose [created_at] lies between the start and the end of
    that day (both included), the tool returns the newline-joined lines of
    the rows [rows], where [rows] holds exactly the events of that range,
    each with the name its item has now, in ascending order of [created_at];
    a line shows the timestamp, the name, the delta and the reason, with a
    dash for a missing or empty reason. *)
Theorem day_with_events_lists_them_in_order
    (date : string) (dt : DateTime) (db : DB) :
  store_ok db ->
  parse date = Some dt ->
  let lo := to_datetime_string (start_of_day dt) in
  let hi := to_datetime_string (end_of_day dt) in
  (exists h, In h (stock_history db) /\ in_range lo hi h = true) ->
  exists rows,
    result_of (get_stock_history_by_date date db)
    = Return (String.concat newline (map format_row rows))
    /\ rows <> []
    /\ Permutation rows
         (map (row_of_event db) (filter (in_range lo hi) (stock_history db)))
    /\ Sorted created_le rows
    /\ (forall r, In r rows ->
          format_row r
          = "[" ++ r_created_at r ++ "] " ++ r_name r ++ " | 변화량: "
              ++ show_Z (r_delta r) ++ " | 사유: "
              ++ match r_reason r with
                 | None => "-"
                 | Some s => if (s =? "")%string then "-" else s
                 end).
Proof.
  intros Hok Hdt lo hi [h [Hh Hin]].
  exists (query_events_in_range lo hi db).
  assert (Hperm : Permutation (query_events_in_range lo hi db)
            (map (row_of_event db) (filter (in_range lo hi) (stock_history db)))).
  { unfold query_events_in_range.
    rewrite (joined_resolved db Hok), filter_rows_of_events.
    apply order_by_perm. }
  assert (Hne : query_events_in_range lo hi db <> []).
  { intros Hnil. rewrite Hnil in Hperm. apply Permutation_nil in Hperm.
    assert (Hmem : In (row_of_event db h)
              (map (row_of_event db) (filter (in_range lo hi) (stock_history db)))).
    { apply in_map. apply filter_In. split; assumption. }
    rewrite Hperm in Hmem. destruct Hmem. }
  repeat split.
  - rewrite (run_history_parsed date lo hi db (day_range_parsed date dt Hdt)).
    unfold result_of. cbn [fst].
    destruct (query_events_in_range lo hi db); [contradiction|reflexivity].
  - exact Hne.
  - exact Hperm.
  - apply order_by_sorted.
Qed.

End HistoryProperties.

(** ** An empty reason and an absent reason *)

Lemma empty_reason_same_run name d now db :
  change_item_stock name d (Some "") now db
  = change_item_stock name d None now db.
Proof. reflexivity. Qed.

Lemma new_event_row_in_query (lo hi name now : string) (d : Z)
    (why : option string) (db : DB) (i : Item) :
  find_item name db = Some i ->
  between lo hi now = true ->
  In {| r_name := name; r_delta := d; r_reason := Some (str_or why "");
        r_created_at := now |}
     (query_events_in_range lo hi (adjusted i d why now db)).
Proof.
  intros E Hb. unfold query_events_in_range.
  apply (Permutation_in _ (Permutation_sym (order_by_perm _))).
  apply filter_In. split; [|exact Hb].
  unfold joined. apply in_flat_map. exists (new_event i d why now db).
  split.
  - unfold adjusted, insert_history. cbn [stock_history].
    apply in_or_app. right. left. reflexivity.
  - apply find_item_name in E. destruct E as [Hin Hname].
    unfold join_event. apply in_map_iff.
    exists (restocked i d now). split.
    + cbn. now rewrite Hname.
    + apply filter_In. split.
      * unfold adjusted. cbn [items insert_history update_items].
        rewrite <- set_stock_self. apply in_map. exact Hin.
      * cbn. apply Z.eqb_refl.
Qed.

Section ReasonProperties.
Context {cal : Calendar}.

(** C10. A call with the empty string as reason runs exactly as the call
    without a reason: same result, same statements, same store.  When the
    call returns its change message, that message shows a dash for the
    reason, the event it stored has the empty string as reason, every
    history row built from that event is displayed with a dash, and the
    history of a day that contains the call's timestamp has such a line. *)
Theorem empty_reason_behaves_as_absent
    (name : string) (d : Z) (now : string) (db : DB) :
  change_item_stock name d (Some "") now db
  = change_item_stock name d None now db
  /\ forall s s',
       let r := change_item_stock name d (Some "") now db in
       result_of r = Return (msg_changed name s s' d (Some "")) ->
       result_of r
       = Return ("'" ++ name ++ "' 재고가 " ++ show_Z s ++ "개 → "
                   ++ show_Z s'
                   ++ "개로 변경되었습니다. (변동: " ++ show_Z d
                   ++ ", 사유: - )")
       /\ (exists e,
             stock_history (store_of r) = (stock_history db ++ [e])%list
             /\ reason e = Some ""
             /\ forall (later : DB) (row : HistoryRow),
                  In row (join_event (items later) e) ->
                  format_row row
                  = "[" ++ now ++ "] " ++ r_name row ++ " | 변화량: "
                      ++ show_Z d ++ " | 사유: -")
       /\ forall date dt,
            parse date = Some dt ->
            between (to_datetime_string (start_of_day dt))
                    (to_datetime_string (end_of_day dt)) now = true ->
            exists rows,
              result_of (get_stock_history_by_date date (store_of r))
              = Return (String.concat newline (history_lines rows))
              /\ In ("[" ++ now ++ "] " ++ name ++ " | 변화량: "
                       ++ show_Z d ++ " | 사유: -")
                    (history_lines rows).
Proof.
  split; [reflexivity|].
  intros s s' r Hmsg. subst r.
  split; [rewrite Hmsg; reflexivity|].
  destruct (returned_change_message name d (Some "") now db s s' Hmsg)
    as (i & E & Hrun).
  rewrite Hrun. unfold store_of. cbn [fst snd disk].
  destruct (adjusted_effects name d (Some "") now db i E) as (A & B & C).
  split.
  - exists (new_event i d (Some "") now db). split; [exact C|].
    split; [reflexivity|].
    intros later row Hrow. unfold join_event in Hrow.
    apply in_map_iff in Hrow. destruct Hrow as [x [<- _]]. reflexivity.
  - intros date dt Hdt Hb.
    exists (query_events_in_range (to_datetime_string (start_of_day dt))
              (to_datetime_string (end_of_day dt))
              (adjusted i d (Some "") now db)).
    pose proof (new_event_row_in_query _ _ name now d (Some "") db i E Hb)
      as Hin.
    split.
    + rewrite (run_history_parsed date _ _ _ (day_range_parsed date dt Hdt)).
      unfold result_of. cbn [fst].
      destruct (query_events_in_range _ _ _); [destruct Hin | reflexivity].
    + unfold history_lines.
      apply in_map_iff. eexists. split; [|exact Hin]. reflexivity.
Qed.

End ReasonProperties.

(** * The tools on the seeded store *)

Example sale_of_five_mice :
  let r := change_item_stock "마우스" (-5) (Some "sale") sale_time shop in
  result_of r
  = Return "'마우스' 재고가 50개 → 45개로 변경되었습니다. (변동: -5, 사유: sale )"
  /\ result_of (get_item_stock_price "마우스" (store_of r))
     = Return "마우스 | 가격: 25000원 | 재고: 45개"
  /\ result_of (get_stock_history_by_date (cal := iso_day) "2024-05-02" (store_of r))
     = Return "[2024-05-02 10:00:00] 마우스 | 변화량: -5 | 사유: sale".
Proof. repeat split. Qed.

Example oversized_sale_is_refused :
  let r := change_item_stock "마우스" (-1000) None "2024-05-02 11:00:00"
             shop_after_sale in
  result_of r = Return "재고 부족! 현재 재고: 45개"
  /\ result_of (get_item_stock_price "마우스" (store_of r))
     = Return "마우스 | 가격: 25000원 | 재고: 45개".
Proof. repeat split. Qed.

(** A store outside the data model (negative stock): the UPDATE is run, the
    INSERT cannot bind its delta, and the open transaction is dropped. *)
Example insert_refused_leaves_the_file :
  let r := change_item_stock "외상" (2 ^ 63 + 2) None sale_time overdrawn in
  result_of r = Raise OverflowError
  /\ journal_of r = [SelectItem "외상"; UpdateStock (2 ^ 63 - 3) sale_time 1]
  /\ option_map stock (find_item "외상" (view (snd r))) = Some (2 ^ 63 - 3)
  /\ store_of r = overdrawn.
Proof. repeat split. Qed.

(** With the history counter at its end the INSERT is refused: the call
    raises, the UPDATE it ran is dropped with the connection, and the file
    is as it was. *)
Example full_table_refuses_the_insert :
  let r := change_item_stock "마우스" 0 None sale_time full_shop in
  result_of r = Raise OperationalError
  /\ journal_of r = [SelectItem "마우스"; UpdateStock 50 sale_time 2]
  /\ store_of r = full_shop.
Proof. repeat split. Qed.

(** C4 as stated fails on the code: the mouse has stock 50 and
    [50 + 2^63 >= 0], yet the call raises [OverflowError] when the UPDATE
    binds the new stock; no message is returned, the stock stays 50 and no
    event is recorded. *)
Lemma delta_beyond_int64_is_refused :
  find_item "마우스" shop = Some mouse
  /\ 0 <= stock mouse + 2 ^ 63
  /\ result_of (change_item_stock "마우스" (2 ^ 63) None sale_time shop)
     = Raise OverflowError
  /\ result_of (change_item_stock "마우스" (2 ^ 63) None sale_time shop)
     <> Return (msg_changed "마우스" (stock mouse) (stock mouse + 2 ^ 63)
                  (2 ^ 63) None)
  /\ option_map stock
       (find_item "마우스"
          (store_of (change_item_stock "마우스" (2 ^ 63) None sale_time shop)))
     = Some 50
  /\ stock_history
       (store_of (change_item_stock "마우스" (2 ^ 63) None sale_time shop))
     = [].
Proof.
  split; [reflexivity|]. split; [vm_compute; discriminate|].
  split; [reflexivity|]. split; [discriminate|]. split; reflexivity.
Qed.

(** * The properties at concrete calls *)

Lemma full_shop_ok : store_ok full_shop.
Proof.
  destruct shop_ok as [A B C D]. constructor; assumption.
Qed.

Lemma shop_after_sale_ok : store_ok shop_after_sale.
Proof. apply change_item_stock_keeps_store_ok, shop_ok. Qed.

Lemma stock_is_initial_plus_recorded_deltas_on_shop :
  stock_by_id 2 (run_calls busy_day shop)
  = Some (50 + deltas_of 2 (run_calls busy_day shop)).
Proof.
  apply (stock_is_initial_plus_recorded_deltas shop mouse busy_day).
  - cbn. repeat constructor; cbn; intuition discriminate.
  - cbn. right. left. reflexivity.
  - intros h Hh. destruct Hh.
Defined.

Lemma negative_candidate_rejected_on_shop :
  let r := change_item_stock "마우스" (-1000) None sale_time shop in
  result_of r = Return (msg_insufficient 50)
  /\ store_of r = shop
  /\ find_item "마우스" (store_of r) = Some mouse
  /\ stock_history (store_of r) = stock_history shop
  /\ (forall s, In s (journal_of r) -> is_write s = false)
  /\ (forall st, In st (states_of shop r) -> st = shop).
Proof.
  apply (negative_candidate_rejected_unchanged
           "마우스" (-1000) None sale_time shop mouse).
  - reflexivity.
  - cbn. lia.
Defined.

Lemma adjustment_writes_on_overdrawn :
  (exists e, result_of (change_item_stock "외상" (2 ^ 63 + 2) None sale_time
                          overdrawn) = Raise e)
  /\ store_of (change_item_stock "외상" (2 ^ 63 + 2) None sale_time overdrawn)
     = overdrawn.
Proof.
  destruct (adjustment_writes_are_all_or_nothing
              "외상" (2 ^ 63 + 2) None sale_time overdrawn) as (_ & H & _).
  apply H.
  - exists (UpdateStock (2 ^ 63 - 3) sale_time 1). split.
    + cbn. right. left. reflexivity.
    + reflexivity.
  - cbn. intros [H0|[H0|[]]]; discriminate H0.
Defined.

Lemma adjustment_within_int64_on_shop :
  let r := change_item_stock "마우스" (-5) (Some "sale") sale_time shop in
  result_of r = Return (msg_changed "마우스" 50 45 (-5) (Some "sale"))
  /\ find_item "마우스" (store_of r)
     = Some {| item_id := 2; item_name := "마우스"; price := 25000;
               stock := 45; created_at := "2024-05-01 09:00:00";
               updated_at := sale_time |}
  /\ items (store_of r) = map (set_stock 45 sale_time 2) (items shop)
  /\ stock_history (store_of r)
     = [{| ev_id := 1; ev_item_id := 2; delta := -5; reason := Some "sale";
           ev_created_at := sale_time |}].
Proof.
  apply (adjustment_within_int64_succeeds
           "마우스" (-5) (Some "sale") sale_time shop mouse).
  - exact shop_ok.
  - reflexivity.
  - reflexivity.
  - cbn. unfold max_int64. lia.
Defined.

Lemma unknown_name_on_shop :
  let r := change_item_stock "모니터" 3 None sale_time shop in
  result_of r = Return (msg_not_found "모니터")
  /\ store_of r = shop
  /\ items (store_of r) = items shop
  /\ stock_history (store_of r) = stock_history shop
  /\ (forall s, In s (journal_of r) -> is_write s = false)
  /\ (forall st, In st (states_of shop r) -> st = shop).
Proof.
  apply (unknown_name_not_found_no_write "모니터" 3 None sale_time shop).
  intros i [<-|[<-|[<-|[]]]]; cbn; discriminate.
Defined.

Lemma invalid_date_on_shop :
  result_of (get_stock_history_by_date (cal := iso_day) "not-a-date" shop)
  = Return msg_invalid_date
  /\ journal_of (get_stock_history_by_date (cal := iso_day) "not-a-date" shop)
     = []
  /\ store_of (get_stock_history_by_date (cal := iso_day) "not-a-date" shop)
     = shop.
Proof.
  destruct (invalid_date_iff_not_well_formed (cal := iso_day)
              "not-a-date" shop) as [[_ H1] H2].
  assert (Hbad : ~ well_formed_date (cal := iso_day) "not-a-date").
  { intros [dt Hdt]. cbn in Hdt. discriminate Hdt. }
  split; [exact (H1 Hbad)|].
  destruct (H2 Hbad) as (A & B & _). split; assumption.
Defined.

(** C6 as stated fails on the code: [20240502] is not a date in the form
    YYYY-MM-DD, yet the library reads it and the tool answers with the
    history of that day instead of the invalid-date message. *)
Lemma basic_form_date_is_answered :
  is_ymd_date "20240502" = false
  /\ result_of (get_stock_history_by_date (cal := iso8601_dates) "20240502"
                  shop_after_sale)
     = Return "[2024-05-02 10:00:00] 마우스 | 변화량: -5 | 사유: sale"
  /\ result_of (get_stock_history_by_date (cal := iso8601_dates) "20240502"
                  shop_after_sale)
     <> Return msg_invalid_date.
Proof.
  split; [reflexivity|]. split; [reflexivity|].
  intros H. apply Return_inj in H. discriminate H.
Qed.

Lemma refused_input_on_shop :
  is_ymd_date "not-a-date" = false
  /\ journal_of (get_stock_history_by_date (cal := iso8601_dates)
                   "not-a-date" shop) = []
  /\ store_of (get_stock_history_by_date (cal := iso8601_dates)
                 "not-a-date" shop) = shop
  /\ states_of shop (get_stock_history_by_date (cal := iso8601_dates)
                       "not-a-date" shop) = [shop].
Proof.
  destruct (invalid_date_only_for_refused_input (cal := iso8601_dates)
              "not-a-date" shop) as (_ & _ & H).
  - intros s Hs. exists s. cbn. unfold iso8601_parse. now rewrite Hs.
  - apply H. reflexivity.
Defined.


Lemma empty_day_on_shop_after_sale :
  let r := get_stock_history_by_date (cal := iso_day) "2024-05-03"
             shop_after_sale in
  result_of r = Return (msg_no_history "2024-05-03")
  /\ msg_no_history "2024-05-03" <> String.concat newline (history_lines [])
  /\ msg_no_history "2024-05-03" <> msg_invalid_date
  /\ store_of r = shop_after_sale.
Proof.
  apply (empty_day_returns_no_history_signal (cal := iso_day)
           "2024-05-03" "2024-05-03" shop_after_sale).
  - reflexivity.
  - intros h [<-|[]]. reflexivity.
Defined.

Lemma day_with_events_on_shop_after_sale :
  exists rows,
    result_of (get_stock_history_by_date (cal := iso_day) "2024-05-02"
                 shop_after_sale)
    = Return (String.concat newline (map format_row rows))
    /\ rows <> []
    /\ Permutation rows
         (map (row_of_event shop_after_sale)
            (filter (in_range "2024-05-02 00:00:00" "2024-05-02 23:59:59")
               (stock_history shop_after_sale)))
    /\ Sorted created_le rows
    /\ (forall r, In r rows ->
          format_row r
          = "[" ++ r_created_at r ++ "] " ++ r_name r ++ " | 변화량: "
              ++ show_Z (r_delta r) ++ " | 사유: "
              ++ match r_reason r with
                 | None => "-"
                 | Some s => if (s =? "")%string then "-" else s
                 end).
Proof.
  apply (day_with_events_lists_them_in_order (cal := iso_day)
           "2024-05-02" "2024-05-02" shop_after_sale).
  - exact shop_after_sale_ok.
  - reflexivity.
  - eexists. split; [left; reflexivity | reflexivity].
Defined.

Lemma empty_reason_on_shop :
  result_of (change_item_stock "마우스" (-5) (Some "") sale_time shop)
  = Return "'마우스' 재고가 50개 → 45개로 변경되었습니다. (변동: -5, 사유: - )".
Proof.
  destruct (empty_reason_behaves_as_absent (cal := iso_day)
              "마우스" (-5) sale_time shop) as [_ H].
  destruct (H 50 45) as [Hmsg _].
  - reflexivity.
  - exact Hmsg.
Defined.

(** * Further properties of the code *)

(** ** Bootstrap *)

Lemma init_db_populated (now : string) (db : DB) :
  items db <> [] -> init_db now db = db.
Proof.
  intros H. unfold init_db. destruct (items db); [contradiction|reflexivity].
Qed.

Lemma run_calls_ids cs db :
  map item_id (items (run_calls cs db)) = map item_id (items db).
Proof.
  revert db. induction cs as [|c cs IH]; intros db; [reflexivity|].
  cbn [run_calls fold_left].
  change (fold_left do_call cs (do_call db c)) with (run_calls cs (do_call db c)).
  now rewrite IH, do_call_ids.
Qed.

(** X1. Running [init_db] a second time, whatever the clock, changes
    nothing: the seed rows are inserted only into an empty [items]. *)
Theorem init_db_twice_is_once (now1 now2 : string) (db : DB) :
  init_db now2 (init_db now1 db) = init_db now1 db.
Proof.
  destruct (items db) as [|x its] eqn:E.
  - apply init_db_populated. unfold init_db. rewrite E.
    cbn [items insert_item]. rewrite E. discriminate.
  - apply init_db_populated. unfold init_db. rewrite E, E. discriminate.
Qed.

(** X2. A restart after any sequence of adjustments keeps the store as the
    adjustments left it: when [items] is not empty, [init_db] after the
    calls is the identity. *)
Theorem restart_keeps_adjustments (now : string) (cs : list Call) (db : DB) :
  items db <> [] ->
  init_db now (run_calls cs db) = run_calls cs db.
Proof.
  intros H. apply init_db_populated. intros Hnil.
  pose proof (run_calls_ids cs db) as Hids. rewrite Hnil in Hids.
  destruct (items db); [contradiction | discriminate Hids].
Qed.

(** X3. On a store with no item and no event, whose item counter leaves
    room for three rowids, [init_db] yields a well-formed store holding the
    three seed items with their prices and stocks, each created and updated
    at the given time. *)
Theorem init_db_seeds_a_well_formed_store (now : string) (db : DB) :
  items db = [] ->
  stock_history db = [] ->
  0 <= items_seq db <= max_int64 - 3 ->
  store_ok (init_db now db)
  /\ map (fun i => (item_name i, price i, stock i)) (items (init_db now db))
     = [("노트북", 1200000, 10); ("마우스", 25000, 50); ("키보드", 70000, 30)]
  /\ Forall (fun i => created_at i = now /\ updated_at i = now)
            (items (init_db now db)).
Proof.
  intros Hi Hh Hseq. rewrite max_int64_value in Hseq.
  unfold init_db. rewrite Hi.
  split; [|split].
  - constructor; cbn [items stock_history insert_item]; rewrite ?Hi, ?Hh;
      cbn [app map].
    + repeat constructor; cbn [item_id stock items_seq insert_item];
        rewrite ?max_int64_value; try lia; apply in_int64_iff; lia.
    + cbn [item_id items_seq insert_item].
      repeat (constructor; [cbn [In]; lia|]). constructor.
    + cbn [item_name].
      repeat (constructor; [cbn [In]; intuition discriminate|]). constructor.
    + constructor.
  - cbn [items insert_item]. rewrite Hi. reflexivity.
  - cbn [items insert_item]. rewrite Hi. repeat constructor.
Qed.

(** ** The lookup tool *)

Lemma run_lookup (name : string) (db : DB) :
  get_item_stock_price name db =
    (Return (match find_item name db with
             | Some i => msg_price_stock name (price i) (stock i)
             | None => msg_not_found name
             end),
     {| disk := db; txn := None; journal := [SelectItem name; Close];
        disk_trace := [db; db] |}).
Proof.
  unfold get_item_stock_price, run, get_item_stock_price_body, bind,
    select_price_stock, close, view, connect. cbn.
  destruct (find_item name db) as [i|]; reflexivity.
Qed.

Lemma price_stock_is_not_not_found (name name' : string) (p s : Z) :
  msg_price_stock name p s <> msg_not_found name'.
Proof.
  intros H. apply (f_equal backwards) in H.
  unfold msg_price_stock, msg_not_found in H.
  rewrite !backwards_app in H.
  cbv [backwards list_ascii_of_string rev app] in H.
  cbn [app] in H. discriminate H.
Qed.

(** X4. [get_item_stock_price] shows the price and the stock of the item
    that carries the name, and returns the not-found message exactly when no
    item carries it. *)
Theorem lookup_finds_exactly_the_named_items (name : string) (db : DB) :
  (forall i, find_item name db = Some i ->
     result_of (get_item_stock_price name db)
     = Return (msg_price_stock name (price i) (stock i)))
  /\ (result_of (get_item_stock_price name db) = Return (msg_not_found name)
      <-> forall i, In i (items db) -> item_name i <> name).
Proof.
  rewrite run_lookup. unfold result_of. cbn [fst].
  split; [intros i ->; reflexivity|]. split.
  - destruct (find_item name db) as [i|] eqn:E.
    + intros H. injection H as H.
      exfalso. exact (price_stock_is_not_not_found _ _ _ _ H).
    + intros _ i Hin Hname. unfold find_item in E.
      apply (find_none _ _ E) in Hin. rewrite Hname, String.eqb_refl in Hin.
      discriminate Hin.
  - intros H. now rewrite (find_item_none name db H).
Qed.

(** X6. After a call that returned its change message, the lookup of the
    same name shows the new stock and the price the item had before. *)
Theorem lookup_after_adjustment_shows_new_stock
    (name : string) (d : Z) (why : option string) (now : string) (db : DB)
    (i : Item) (s s' : Z) :
  find_item name db = Some i ->
  result_of (change_item_stock name d why now db)
  = Return (msg_changed name s s' d why) ->
  result_of (get_item_stock_price name
               (store_of (change_item_stock name d why now db)))
  = Return (msg_price_stock name (price i) (stock i + d)).
Proof.
  intros E Hmsg.
  destruct (returned_change_message name d why now db s s' Hmsg)
    as (j & Ej & Hrun).
  rewrite E in Ej. injection Ej as <-.
  rewrite Hrun. unfold store_of at 1. cbn [snd disk].
  rewrite run_lookup. unfold result_of. cbn [fst].
  destruct (adjusted_effects name d why now db i E) as (A & _ & _).
  rewrite A. reflexivity.
Qed.

Section ReadTools.
Context {cal : Calendar}.

(** X5. The two read tools never write: for every name and every date,
    accepted or not, no UPDATE, INSERT or commit is run and the file is the
    same at every moment of the call and after it. *)
Theorem read_tools_never_write (name date : string) (db : DB) :
  let r1 := get_item_stock_price name db in
  let r2 := get_stock_history_by_date date db in
  (store_of r1 = db
   /\ (forall s, In s (journal_of r1) -> is_write s = false)
   /\ (forall st, In st (states_of db r1) -> st = db))
  /\ (store_of r2 = db
      /\ (forall s, In s (journal_of r2) -> is_write s = false)
      /\ (forall st, In st (states_of db r2) -> st = db)).
Proof.
  intros r1 r2. subst r1 r2. split.
  - rewrite run_lookup. expose_run. repeat split.
    + intros s [<-|[<-|[]]]; reflexivity.
    + intros st [<-|[<-|[<-|[]]]]; reflexivity.
  - destruct (day_range date) as [[lo hi]|] eqn:E.
    + rewrite (run_history_parsed date lo hi db E). expose_run. repeat split.
      * intros s [<-|[<-|[]]]; reflexivity.
      * intros st [<-|[<-|[<-|[]]]]; reflexivity.
    + rewrite (run_history_invalid date db E). expose_run.
      cbn [connect disk journal disk_trace]. repeat split.
      * intros s [].
      * intros st [<-|[]]; reflexivity.
Qed.

End ReadTools.

(** ** The adjustment: its outcomes *)

(** X7. In a well-formed store [change_item_stock] raises [OverflowError]
    exactly when the item exists and the new stock would exceed the largest
    64-bit integer, and raises [OperationalError] exactly when the item
    exists, the new stock is within [0, 2^63 - 1] and the history has no
    rowid left; on every other input it returns a message. *)
Theorem raises_exactly_on_overflow_or_full_table
    (name : string) (d : Z) (why : option string) (now : string) (db : DB) :
  store_ok db ->
  let r := change_item_stock name d why now db in
  (result_of r = Raise OverflowError
   <-> exists i, find_item name db = Some i /\ max_int64 < stock i + d)
  /\ (result_of r = Raise OperationalError
      <-> exists i, find_item name db = Some i
            /\ 0 <= stock i + d <= max_int64
            /\ max_int64 <= largest_rowid db)
  /\ ((exists msg, result_of r = Return msg)
      <-> forall i, find_item name db = Some i ->
            stock i + d < 0
            \/ (stock i + d <= max_int64 /\ largest_rowid db < max_int64)).
Proof.
  intros Hok r. subst r.
  destruct (path_cases name d why now db)
    as [E | i E Hneg | i E Hpos Hbad | i E Hpos H1 Hbad
        | i E Hpos H1 Hd Hfull | i E Hpos H1 Hd Hroom].
  - rewrite (run_not_found name d why now db E). expose_run.
    split; [|split]; split.
    + intros H. discriminate H.
    + intros [i [Hi _]]. rewrite E in Hi. discriminate Hi.
    + intros H. discriminate H.
    + intros [i [Hi _]]. rewrite E in Hi. discriminate Hi.
    + intros _ i Hi. rewrite E in Hi. discriminate Hi.
    + intros _. eexists. reflexivity.
  - rewrite (run_insufficient name d why now db i E Hneg). expose_run.
    split; [|split]; split.
    + intros H. discriminate H.
    + intros [j [Hj Hbig]]. rewrite E in Hj. injection Hj as <-.
      rewrite max_int64_value in Hbig. lia.
    + intros H. discriminate H.
    + intros [j [Hj [Hr _]]]. rewrite E in Hj. injection Hj as <-. lia.
    + intros _ j Hj. rewrite E in Hj. injection Hj as <-. left. exact Hneg.
    + intros _. eexists. reflexivity.
  - assert (Hbig : max_int64 < stock i + d).
    { destruct (item_ok_of_store db name i Hok E) as [Hid _].
      rewrite Hid, andb_true_r in Hbad. rewrite max_int64_value.
      destruct (Z_le_gt_dec (stock i + d) 9223372036854775807) as [Hle|Hgt];
        [|lia].
      assert (Hin : in_int64 (stock i + d) = true)
        by (apply in_int64_iff; lia).
      rewrite Hin in Hbad. discriminate Hbad. }
    rewrite (run_update_refused name d why now db i E Hpos Hbad). expose_run.
    split; [|split]; split.
    + intros _. exists i. split; assumption.
    + reflexivity.
    + intros H. discriminate H.
    + intros [j [Hj [Hr _]]]. rewrite E in Hj. injection Hj as <-. lia.
    + intros [msg H]. discriminate H.
    + intros H. destruct (H i E) as [Hn | [Hle _]]; lia.
  - exfalso.
    destruct (item_ok_of_store db name i Hok E) as [_ Hs].
    rewrite max_int64_value in Hs.
    apply andb_true_iff in H1. destruct H1 as [Hn _].
    apply in_int64_iff in Hn.
    assert (Hin : in_int64 d = true) by (apply in_int64_iff; lia).
    rewrite Hin in Hbad. discriminate Hbad.
  - assert (Hle : stock i + d <= max_int64).
    { apply andb_true_iff in H1. destruct H1 as [Hn _].
      apply in_int64_iff in Hn. rewrite max_int64_value. lia. }
    rewrite (run_table_full name d why now db i E Hpos H1 Hd Hfull).
    expose_run. split; [|split]; split.
    + intros H. discriminate H.
    + intros [j [Hj Hbig]]. rewrite E in Hj. injection Hj as <-. lia.
    + intros _. exists i. repeat split; assumption.
    + reflexivity.
    + intros [msg H]. discriminate H.
    + intros H. destruct (H i E) as [Hn | [_ Hlt]]; lia.
  - assert (Hle : stock i + d <= max_int64).
    { apply andb_true_iff in H1. destruct H1 as [Hn _].
      apply in_int64_iff in Hn. rewrite max_int64_value. lia. }
    rewrite (run_success name d why now db i E Hpos H1 Hd Hroom). expose_run.
    split; [|split]; split.
    + intros H. discriminate H.
    + intros [j [Hj Hbig]]. rewrite E in Hj. injection Hj as <-. lia.
    + intros H. discriminate H.
    + intros [j [Hj [_ Hf]]]. rewrite E in Hj. injection Hj as <-. lia.
    + intros _ j Hj. rewrite E in Hj. injection Hj as <-. right. split; assumption.
    + intros _. eexists. reflexivity.
Qed.

(** X8. The returned string tells the outcome: the not-found message comes
    back exactly when no row has the name, an insufficient-stock message
    exactly when the item exists and the new stock would be negative, and a
    change message exactly when the call committed. *)
Theorem message_tells_the_outcome
    (name : string) (d : Z) (why : option string) (now : string) (db : DB) :
  let r := change_item_stock name d why now db in
  (result_of r = Return (msg_not_found name) <-> find_item name db = None)
  /\ ((exists s, result_of r = Return (msg_insufficient s))
      <-> exists i, find_item name db = Some i /\ stock i + d < 0)
  /\ ((exists s s', result_of r = Return (msg_changed name s s' d why))
      <-> In Commit (journal_of r)).
Proof.
  intros r. subst r.
  destruct (path_cases name d why now db)
    as [E | i E Hneg | i E Hpos Hbad | i E Hpos H1 Hbad
        | i E Hpos H1 Hd Hfull | i E Hpos H1 Hd Hroom].
  - rewrite (run_not_found name d why now db E). expose_run.
    split; [tauto|]. split; split.
    + intros [s H]. apply Return_inj in H. symmetry in H.
      exfalso. exact (insufficient_is_not_not_found _ _ H).
    + intros [i [Hi _]]. rewrite E in Hi. discriminate Hi.
    + intros [s [s' H]]. apply Return_inj in H. symmetry in H.
      exfalso. exact (changed_is_not_not_found _ _ _ _ _ H).
    + intros [H|[H|[]]]; discriminate H.
  - rewrite (run_insufficient name d why now db i E Hneg). expose_run.
    split; [|split]; split.
    + intros H. apply Return_inj in H.
      exfalso. exact (insufficient_is_not_not_found _ _ H).
    + intros H. rewrite E in H. discriminate H.
    + intros _. exists i. split; assumption.
    + intros _. exists (stock i). reflexivity.
    + intros [s [s' H]]. apply Return_inj in H.
      exfalso. exact (insufficient_is_not_changed _ _ _ _ _ _ H).
    + intros [H|[H|[]]]; discriminate H.
  - rewrite (run_update_refused name d why now db i E Hpos Hbad). expose_run.
    split; [|split]; split.
    + intros H. discriminate H.
    + intros H. rewrite E in H. discriminate H.
    + intros [s H]. discriminate H.
    + intros [j [Hj Hlt]]. rewrite E in Hj. injection Hj as <-. lia.
    + intros [s [s' H]]. discriminate H.
    + intros [H|[]]; discriminate H.
  - rewrite (run_insert_refused name d why now db i E Hpos H1 Hbad).
    expose_run. split; [|split]; split.
    + intros H. discriminate H.
    + intros H. rewrite E in H. discriminate H.
    + intros [s H]. discriminate H.
    + intros [j [Hj Hlt]]. rewrite E in Hj. injection Hj as <-. lia.
    + intros [s [s' H]]. discriminate H.
    + intros [H|[H|[]]]; discriminate H.
  - rewrite (run_table_full name d why now db i E Hpos H1 Hd Hfull).
    expose_run. split; [|split]; split.
    + intros H. discriminate H.
    + intros H. rewrite E in H. discriminate H.
    + intros [s H]. discriminate H.
    + intros [j [Hj Hlt]]. rewrite E in Hj. injection Hj as <-. lia.
    + intros [s [s' H]]. discriminate H.
    + intros [H|[H|[]]]; discriminate H.
  - rewrite (run_success name d why now db i E Hpos H1 Hd Hroom). expose_run.
    split; [|split]; split.
    + intros H. apply Return_inj in H.
      exfalso. exact (changed_is_not_not_found _ _ _ _ _ H).
    + intros H. rewrite E in H. discriminate H.
    + intros [s H]. apply Return_inj in H. symmetry in H.
      exfalso. exact (insufficient_is_not_changed _ _ _ _ _ _ H).
    + intros [j [Hj Hlt]]. rewrite E in Hj. injection Hj as <-. lia.
    + intros _. cbn. tauto.
    + intros _. exists (stock i), (stock i + d). reflexivity.
Qed.

(** X14. A call that returns a message has closed its connection, with no
    transaction left open; a call that raises has neither committed nor
    closed it. *)
Theorem connection_closed_only_on_return
    (name : string) (d : Z) (why : option string) (now : string) (db : DB) :
  let r := change_item_stock name d why now db in
  (forall msg, result_of r = Return msg ->
     txn (snd r) = None /\ last (journal_of r) Commit = Close)
  /\ (forall e, result_of r = Raise e ->
        ~ In Close (journal_of r) /\ ~ In Commit (journal_of r)).
Proof.
  intros r. subst r.
  destruct (path_cases name d why now db)
    as [E | i E Hneg | i E Hpos Hbad | i E Hpos H1 Hbad
        | i E Hpos H1 Hd Hfull | i E Hpos H1 Hd Hroom].
  - rewrite (run_not_found name d why now db E). expose_run.
    split; [intros; split; reflexivity | intros e H; discriminate H].
  - rewrite (run_insufficient name d why now db i E Hneg). expose_run.
    split; [intros; split; reflexivity | intros e H; discriminate H].
  - rewrite (run_update_refused name d why now db i E Hpos Hbad). expose_run.
    split; [intros msg H; discriminate H|].
    intros e _. split; intros [H|[]]; discriminate H.
  - rewrite (run_insert_refused name d why now db i E Hpos H1 Hbad).
    expose_run. split; [intros msg H; discriminate H|].
    intros e _. split; intros [H|[H|[]]]; discriminate H.
  - rewrite (run_table_full name d why now db i E Hpos H1 Hd Hfull).
    expose_run. split; [intros msg H; discriminate H|].
    intros e _. split; intros [H|[H|[]]]; discriminate H.
  - rewrite (run_success name d why now db i E Hpos H1 Hd Hroom). expose_run.
    split; [intros; split; reflexivity | intros e H; discriminate H].
Qed.

(** ** The adjustment: what any sequence of calls keeps *)

(** X9. Well-formedness is kept by every sequence of calls; in particular
    no stock ever becomes negative or leaves the 64-bit range, and ids and
    names stay unique. *)
Theorem calls_keep_the_store_well_formed (cs : list Call) (db : DB) :
  store_ok db ->
  store_ok (run_calls cs db)
  /\ forall i, In i (items (run_calls cs db)) -> 0 <= stock i <= max_int64.
Proof.
  intros Hok. pose proof (run_calls_keep_store_ok cs db Hok) as H.
  split; [exact H|].
  intros i Hi. pose proof (ok_items _ H) as HF.
  rewrite Forall_forall in HF. exact (proj2 (HF i Hi)).
Qed.

Lemma do_call_history db c :
  stock_history (do_call db c) = stock_history db
  \/ exists e, stock_history (do_call db c) = (stock_history db ++ [e])%list
               /\ reason e <> None
               /\ ev_id e = largest_rowid db + 1
               /\ history_seq (do_call db c) = largest_rowid db + 1.
Proof.
  unfold do_call.
  destruct (store_after_call (call_name c) (call_delta c) (call_reason c)
              (call_now c) db) as [->|(i & _ & _ & _ & ->)].
  - left. reflexivity.
  - right. eexists. split; [reflexivity|]. cbn. repeat split. discriminate.
Qed.

Lemma do_call_seq db c :
  stock_history (do_call db c) = stock_history db ->
  history_seq (do_call db c) = history_seq db.
Proof.
  unfold do_call.
  destruct (store_after_call (call_name c) (call_delta c) (call_reason c)
              (call_now c) db) as [->|(i & _ & _ & _ & ->)];
    [reflexivity|].
  unfold adjusted, insert_history. cbn [stock_history update_items].
  intros H. apply (f_equal (@List.length _)) in H.
  rewrite length_app in H. cbn in H. lia.
Qed.

(** X10. The history is append-only: after any sequence of calls the old
    events are still there, unchanged and in front, at most one event was
    added per call, and every added event has a reason that is not NULL. *)
Theorem history_is_append_only (cs : list Call) (db : DB) :
  exists added,
    stock_history (run_calls cs db) = (stock_history db ++ added)%list
    /\ (List.length added <= List.length cs)%nat
    /\ Forall (fun e => reason e <> None) added.
Proof.
  revert db. induction cs as [|c cs IH]; intros db.
  - exists []. cbn. rewrite app_nil_r. split; [reflexivity|]. split; [lia|constructor].
  - cbn [run_calls fold_left].
    change (fold_left do_call cs (do_call db c))
      with (run_calls cs (do_call db c)).
    destruct (IH (do_call db c)) as (added & Hh & Hlen & Hr).
    destruct (do_call_history db c) as [Hsame | (e & He & Hre & _)].
    + exists added. rewrite Hh, Hsame. cbn [List.length]. split; [reflexivity|]. split; [lia|exact Hr].
    + exists (e :: added). rewrite Hh, He, <- app_assoc. cbn [app List.length].
      split; [reflexivity|]. split; [lia|]. constructor; assumption.
Qed.

Lemma set_stock_identity ns now id (x : Item) :
  identity_of (set_stock ns now id x) = identity_of x.
Proof. unfold set_stock. destruct (item_id x =? id); reflexivity. Qed.

Lemma do_call_identity db c :
  map identity_of (items (do_call db c)) = map identity_of (items db).
Proof.
  unfold do_call.
  destruct (store_after_call (call_name c) (call_delta c) (call_reason c)
              (call_now c) db) as [->|(i & _ & _ & _ & ->)]; [reflexivity|].
  unfold adjusted. cbn [items insert_history update_items].
  rewrite map_map. apply map_ext. intros x. apply set_stock_identity.
Qed.

(** X11. No sequence of calls creates, deletes, reorders, renames or
    reprices an item, or touches its [created_at]: the ids, names, prices
    and creation times of the rows of [items] are as before. *)
Theorem calls_never_change_item_identity (cs : list Call) (db : DB) :
  map identity_of (items (run_calls cs db)) = map identity_of (items db).
Proof.
  revert db. induction cs as [|c cs IH]; intros db; [reflexivity|].
  cbn [run_calls fold_left].
  change (fold_left do_call cs (do_call db c)) with (run_calls cs (do_call db c)).
  now rewrite IH, do_call_identity.
Qed.

Lemma item_by_id_adjusted id i d why now db :
  item_by_id id (adjusted i d why now db)
  = option_map (set_stock (stock i + d) now (item_id i)) (item_by_id id db).
Proof. exact (item_by_id_update id (stock i + d) now (item_id i) db). Qed.

(** X12. A call leaves every other item as it was: a row whose id is not
    the id of the row found under the name is returned unchanged by a lookup
    by id, whatever the outcome of the call. *)
Theorem call_leaves_other_items_alone
    (name : string) (d : Z) (why : option string) (now : string) (db : DB)
    (id : Z) :
  (forall i, find_item name db = Some i -> item_id i <> id) ->
  item_by_id id (store_of (change_item_stock name d why now db))
  = item_by_id id db.
Proof.
  intros Hother.
  destruct (store_after_call name d why now db) as [->|(i & E & _ & _ & ->)];
    [reflexivity|].
  rewrite item_by_id_adjusted.
  destruct (item_by_id id db) as [x|] eqn:Ex; [|reflexivity].
  apply item_by_id_found in Ex. destruct Ex as [_ Hid].
  cbn [option_map]. unfold set_stock.
  destruct (item_id x =? item_id i) eqn:Eq; [|reflexivity].
  apply Z.eqb_eq in Eq. exfalso. apply (Hother i E). congruence.
Qed.

Lemma sorted_snoc (l : list Z) (x : Z) :
  StronglySorted Z.lt l -> Forall (fun y => y < x) l ->
  StronglySorted Z.lt (l ++ [x]).
Proof.
  induction 1 as [|y l Hs IH Hy]; intros Hlt; cbn [app].
  - repeat constructor.
  - inversion Hlt as [|? ? Hyx Hrest]; subst.
    constructor; [apply IH; exact Hrest|].
    apply Forall_app. split; [exact Hy|]. constructor; [exact Hyx|constructor].
Qed.

Lemma largest_rowid_numbered db :
  Forall (fun h => ev_id h <= history_seq db) (stock_history db) ->
  largest_rowid db = history_seq db.
Proof.
  unfold largest_rowid. induction 1 as [|h l Hh _ IH]; cbn [map fold_right].
  - reflexivity.
  - rewrite IH. lia.
Qed.

Lemma do_call_numbered db c :
  events_numbered db -> events_numbered (do_call db c).
Proof.
  intros [Hs Hle]. pose proof (largest_rowid_numbered db Hle) as Hlr.
  destruct (do_call_history db c) as [Hsame | (e & He & _ & Hid & Hseq)].
  - unfold events_numbered. rewrite Hsame, (do_call_seq db c Hsame).
    split; assumption.
  - unfold events_numbered. rewrite He, Hseq, map_app. cbn [map]. split.
    + apply sorted_snoc; [exact Hs|].
      rewrite Forall_map. rewrite Hid.
      eapply Forall_impl; [|exact Hle]. cbn. intros h Hh. lia.
    + apply Forall_app. split.
      * eapply Forall_impl; [|exact Hle]. cbn. intros h Hh. lia.
      * constructor; [lia|constructor].
Qed.

(** X13. Event ids strictly increase in insertion order and never exceed
    the counter: a numbering that holds before a sequence of calls holds
    after it, so no id is ever handed out twice. *)
Theorem calls_keep_events_numbered (cs : list Call) (db : DB) :
  events_numbered db -> events_numbered (run_calls cs db).
Proof.
  revert db. induction cs as [|c cs IH]; intros db H; [exact H|].
  cbn [run_calls fold_left]. apply IH, do_call_numbered, H.
Qed.

(** ** The history tool: rows and composition with the adjustment *)

(** X16. A row is listed exactly when it pairs an event whose [created_at]
    lies in the range, both ends included, with an item whose id is the
    event's [item_id]; an event that matches no item gives no row. *)
Theorem listed_rows_pair_events_in_range_with_items
    (lo hi : string) (db : DB) (r : HistoryRow) :
  In r (query_events_in_range lo hi db)
  <-> exists h i,
        In h (stock_history db) /\ In i (items db)
        /\ ev_item_id h = item_id i
        /\ (lo <=? ev_created_at h)%string = true
        /\ (ev_created_at h <=? hi)%string = true
        /\ r = {| r_name := item_name i; r_delta := delta h;
                  r_reason := reason h; r_created_at := ev_created_at h |}.
Proof.
  unfold query_events_in_range. split.
  - intros Hr. apply (Permutation_in _ (order_by_perm _)) in Hr.
    apply filter_In in Hr. destruct Hr as [Hj Hb].
    unfold joined in Hj. apply in_flat_map in Hj. destruct Hj as [h [Hh Hj]].
    unfold join_event in Hj. apply in_map_iff in Hj.
    destruct Hj as [i [<- Hi]]. apply filter_In in Hi.
    destruct Hi as [Hi Hid]. apply Z.eqb_eq in Hid.
    unfold between in Hb. cbn [r_created_at] in Hb.
    apply andb_true_iff in Hb. destruct Hb as [Hlo Hhi].
    exists h, i. repeat split; assumption.
  - intros (h & i & Hh & Hi & Hid & Hlo & Hhi & ->).
    apply (Permutation_in _ (Permutation_sym (order_by_perm _))).
    apply filter_In. split.
    + unfold joined. apply in_flat_map. exists h. split; [exact Hh|].
      unfold join_event. apply in_map_iff. exists i. split; [reflexivity|].
      apply filter_In. split; [exact Hi|]. now apply Z.eqb_eq.
    + unfold between. cbn [r_created_at]. now rewrite Hlo, Hhi.
Qed.

Lemma join_event_set_stock ns now id (its : list Item) (h : StockEvent) :
  join_event (map (set_stock ns now id) its) h = join_event its h.
Proof.
  unfold join_event. induction its as [|x its IH]; [reflexivity|].
  cbn [map filter]. rewrite set_stock_id.
  destruct (ev_item_id h =? item_id x); cbn [map];
    [rewrite set_stock_name, IH | rewrite IH]; reflexivity.
Qed.

Lemma joined_adjusted i d why now db :
  joined (adjusted i d why now db)
  = (joined db ++ join_event (items db) (new_event i d why now db))%list.
Proof.
  unfold joined, adjusted.
  cbn [items stock_history insert_history update_items].
  rewrite flat_map_app. cbn [flat_map]. rewrite app_nil_r.
  rewrite join_event_set_stock. f_equal.
  apply flat_map_ext. intros h. apply join_event_set_stock.
Qed.

Lemma join_event_created_at (its : list Item) (h : StockEvent) (r : HistoryRow) :
  In r (join_event its h) -> r_created_at r = ev_created_at h.
Proof.
  unfold join_event. intros Hr. apply in_map_iff in Hr.
  destruct Hr as [i [<- _]]. reflexivity.
Qed.

Section HistoryComposition.
Context {cal : Calendar}.

(** X15. The history tool closes its connection exactly when the calendar
    accepts the date; on the invalid-date path it returns with the
    connection it opened still open. *)
Theorem history_closes_iff_date_accepted (date : string) (db : DB) :
  In Close (journal_of (get_stock_history_by_date date db))
  <-> well_formed_date date.
Proof.
  split.
  - intros Hc. destruct (parse date) as [dt|] eqn:E; [exists dt; exact E|].
    assert (Hbad : ~ well_formed_date date).
    { intros [dt Hdt]. rewrite E in Hdt. discriminate Hdt. }
    rewrite (run_history_invalid date db (day_range_refused date Hbad)) in Hc.
    destruct Hc.
  - intros [dt Hdt].
    rewrite (run_history_parsed date _ _ db (day_range_parsed date dt Hdt)).
    unfold journal_of. cbn. tauto.
Qed.

(** X17. A call of [change_item_stock] whose timestamp lies outside a day
    leaves the history of that day as it was, whatever the call does. *)
Theorem adjustment_outside_a_day_keeps_its_history
    (name : string) (d : Z) (why : option string) (now : string) (db : DB)
    (date : string) (dt : DateTime) :
  parse date = Some dt ->
  between (to_datetime_string (start_of_day dt))
          (to_datetime_string (end_of_day dt)) now = false ->
  result_of (get_stock_history_by_date date
               (store_of (change_item_stock name d why now db)))
  = result_of (get_stock_history_by_date date db).
Proof.
  intros Hdt Hout.
  destruct (store_after_call name d why now db) as [->|(i & E & _ & _ & ->)];
    [reflexivity|].
  rewrite !(run_history_parsed date _ _ _ (day_range_parsed date dt Hdt)).
  unfold result_of. cbn [fst].
  assert (Hq : query_events_in_range (to_datetime_string (start_of_day dt))
                 (to_datetime_string (end_of_day dt)) (adjusted i d why now db)
               = query_events_in_range (to_datetime_string (start_of_day dt))
                   (to_datetime_string (end_of_day dt)) db).
  { unfold query_events_in_range. rewrite joined_adjusted, filter_app.
    rewrite (filter_nothing _ (join_event _ _)); [now rewrite app_nil_r|].
    intros r Hr. rewrite (join_event_created_at _ _ r Hr). exact Hout. }
  rewrite Hq. reflexivity.
Qed.

(** X18. In a well-formed store, a call that returned its change message
    and whose timestamp lies in a range adds exactly one row to the rows of
    that range: the one with the item's name, the delta, the stored reason
    and the timestamp. *)
Theorem adjustment_in_a_day_adds_one_row
    (name : string) (d : Z) (why : option string) (now : string) (db : DB)
    (s s' : Z) (lo hi : string) :
  store_ok db ->
  result_of (change_item_stock name d why now db)
  = Return (msg_changed name s s' d why) ->
  between lo hi now = true ->
  Permutation
    (query_events_in_range lo hi
       (store_of (change_item_stock name d why now db)))
    ({| r_name := name; r_delta := d; r_reason := Some (str_or why "");
        r_created_at := now |}
     :: query_events_in_range lo hi db).
Proof.
  intros Hok Hmsg Hin.
  destruct (returned_change_message name d why now db s s' Hmsg)
    as (i & E & Hrun).
  rewrite Hrun. unfold store_of. cbn [snd disk].
  unfold query_events_in_range. rewrite joined_adjusted, filter_app.
  destruct (find_item_name name db i E) as [Hmem Hname].
  rewrite (join_event_resolved db (new_event i d why now db) (ok_ids db Hok)
             (in_map item_id _ _ Hmem)).
  unfold row_of_event, name_of_id. cbn [new_event ev_item_id delta reason ev_created_at].
  rewrite (item_by_id_unique db i (ok_ids db Hok) Hmem), Hname.
  cbn [filter r_created_at]. rewrite Hin.
  eapply perm_trans; [apply order_by_perm|].
  eapply perm_trans; [apply Permutation_app_comm|]. cbn [app].
  apply perm_skip, Permutation_sym, order_by_perm.
Qed.

End HistoryComposition.

(** ** Start-up *)

Section StartupProperties.
Variable py_int : string -> option Z.

Lemma scan_port_cons (q : Z) (a : string) (rest : list string) :
  scan_port py_int q (a :: rest)
  = scan_port py_int
      (if (a =? "--http")%string then
         match rest with
         | next :: _ =>
             match py_int (lstrip ":" next) with
             | Some p => p
             | None => q
             end
         | [] => q
         end
       else q) rest.
Proof. reflexivity. Qed.

Lemma scan_port_without_flag (q : Z) (argv : list string) :
  ~ In "--http" argv -> scan_port py_int q argv = q.
Proof.
  revert q. induction argv as [|a rest IH]; intros q Hno; [reflexivity|].
  rewrite scan_port_cons. destruct (a =? "--http")%string eqn:E.
  - apply String.eqb_eq in E. exfalso. apply Hno. left. exact E.
  - apply IH. intros H. apply Hno. right. exact H.
Qed.

Lemma flag_found (argv : list string) :
  existsb (fun a => (a =? "--http")%string) argv = true <-> In "--http" argv.
Proof.
  rewrite existsb_exists. split.
  - intros [a [Ha E]]. apply String.eqb_eq in E. now subst a.
  - intros H. exists "--http". split; [exact H|reflexivity].
Qed.

(** X19. The server runs on standard input and output exactly when no
    argument is [--http]; otherwise it is started in HTTP mode, whatever
    follows the flag. *)
Theorem stdio_exactly_without_http_flag (argv : list string) :
  (select_mode py_int argv = Stdio <-> ~ In "--http" argv)
  /\ (In "--http" argv <-> exists p, select_mode py_int argv = Http p).
Proof.
  unfold select_mode.
  destruct (existsb _ argv) eqn:E.
  - apply flag_found in E. split; split.
    + intros H. discriminate H.
    + intros H. contradiction.
    + intros _. eexists. reflexivity.
    + intros _. exact E.
  - assert (Hno : ~ In "--http" argv).
    { intros H. apply flag_found in H. rewrite H in E. discriminate E. }
    split; split.
    + intros _. exact Hno.
    + reflexivity.
    + intros H. contradiction.
    + intros [p H]. discriminate H.
Qed.

Lemma scan_port_unreadable (q : Z) (argv : list string) :
  (forall pre s post, argv = (pre ++ "--http" :: s :: post)%list ->
     py_int (lstrip ":" s) = None) ->
  scan_port py_int q argv = q.
Proof.
  revert q. induction argv as [|a rest IH]; intros q Hbad; [reflexivity|].
  rewrite scan_port_cons.
  assert (Hrest : forall pre s post,
             rest = (pre ++ "--http" :: s :: post)%list ->
             py_int (lstrip ":" s) = None).
  { intros pre s post ->. apply (Hbad (a :: pre) s post). reflexivity. }
  destruct (a =? "--http")%string eqn:E; [|apply IH; exact Hrest].
  apply String.eqb_eq in E. subst a.
  destruct rest as [|next rest']; [reflexivity|].
  rewrite (Hbad [] next rest' eq_refl). apply IH. exact Hrest.
Qed.

Lemma scan_port_last (q p : Z) (pre post : list string) (s : string) :
  py_int (lstrip ":" s) = Some p ->
  (forall pre' s' post',
     (s :: post) = (pre' ++ "--http" :: s' :: post')%list ->
     py_int (lstrip ":" s') = None) ->
  scan_port py_int q (pre ++ "--http" :: s :: post) = p.
Proof.
  intros Hp Hlater. revert q. induction pre as [|a pre IH]; intros q.
  - cbn [app]. rewrite scan_port_cons, String.eqb_refl, Hp.
    apply scan_port_unreadable. exact Hlater.
  - cbn [app]. rewrite scan_port_cons. apply IH.
Qed.

(** X20. The port is read after the last [--http] whose next argument can
    be read: when that argument, stripped of leading colons, reads as the
    integer [p], and no later [--http] is followed by a readable argument
    (a later one may also come last, with nothing after it), HTTP mode is
    selected with port [p], whatever came before and whatever [p] is. *)
Theorem last_http_flag_gives_the_port
    (p : Z) (pre post : list string) (s : string) :
  py_int (lstrip ":" s) = Some p ->
  (forall pre' s' post',
     (s :: post) = (pre' ++ "--http" :: s' :: post')%list ->
     py_int (lstrip ":" s') = None) ->
  select_mode py_int (pre ++ "--http" :: s :: post) = Http p.
Proof.
  intros Hp Hlater. unfold select_mode.
  rewrite (proj2 (flag_found _)) by (apply in_or_app; right; left; reflexivity).
  now rewrite (scan_port_last 8080 p pre post s Hp Hlater).
Qed.

(** X21. With the flag but no readable port (the flag comes last, or what
    follows every [--http] does not read as an integer) the port is the
    default 8080: the failure to read is swallowed. *)
Theorem unreadable_port_falls_back_to_8080 (argv : list string) :
  In "--http" argv ->
  (forall pre s post, argv = (pre ++ "--http" :: s :: post)%list ->
     py_int (lstrip ":" s) = None) ->
  select_mode py_int argv = Http 8080.
Proof.
  intros Hflag Hbad. unfold select_mode.
  rewrite (proj2 (flag_found argv) Hflag).
  now rewrite (scan_port_unreadable 8080 argv Hbad).
Qed.

Lemma scan_port_colon (q : Z) (pre post : list string) (s : string) :
  s <> "--http" ->
  scan_port py_int q (pre ++ "--http" :: String ":" s :: post)
  = scan_port py_int q (pre ++ "--http" :: s :: post).
Proof.
  intros Hs. apply String.eqb_neq in Hs.
  revert q. induction pre as [|a pre IH]; intros q.
  - cbn [app]. rewrite !(scan_port_cons q "--http"), String.eqb_refl.
    cbn [lstrip]. rewrite Ascii.eqb_refl.
    rewrite (scan_port_cons _ (String ":" s)), (scan_port_cons _ s).
    change (String ":" s =? "--http")%string with false. cbv iota.
    rewrite Hs. reflexivity.
  - cbn [app]. rewrite !(scan_port_cons q a).
    destruct pre as [|b pre']; cbn [app]; apply IH.
Qed.

(** X22. Leading colons of the port argument do not count: [--http :8080]
    and [--http 8080] select the same mode. *)
Theorem leading_colon_of_the_port_is_ignored
    (pre post : list string) (s : string) :
  s <> "--http" ->
  select_mode py_int (pre ++ "--http" :: String ":" s :: post)
  = select_mode py_int (pre ++ "--http" :: s :: post).
Proof.
  intros Hs. unfold select_mode.
  rewrite !(proj2 (flag_found _)) by (apply in_or_app; right; left; reflexivity).
  now rewrite (scan_port_colon 8080 pre post s Hs).
Qed.

End StartupProperties.

(** * The further properties at concrete calls *)

Example start_in_http_mode :
  select_mode decimal_int ["main.py"; "--"; "--http"; ":8080"] = Http 8080
  /\ banner (Http 8080)
     = "[MCP] HTTP 서버 모드로 실행 중... (http://localhost:8080/mcp)"
  /\ http_address 8080 = "0.0.0.0:8080"
  /\ select_mode decimal_int ["main.py"] = Stdio.
Proof. repeat split. Qed.

Lemma restart_keeps_adjustments_on_shop :
  init_db "2024-06-01 08:00:00" (run_calls busy_day shop)
  = run_calls busy_day shop.
Proof.
  apply (restart_keeps_adjustments "2024-06-01 08:00:00" busy_day shop).
  cbn. discriminate.
Defined.

Lemma init_db_seeds_the_empty_store :
  store_ok (init_db "2024-05-01 09:00:00" empty_db)
  /\ map (fun i => (item_name i, price i, stock i))
         (items (init_db "2024-05-01 09:00:00" empty_db))
     = [("노트북", 1200000, 10); ("마우스", 25000, 50); ("키보드", 70000, 30)]
  /\ Forall (fun i => created_at i = "2024-05-01 09:00:00"
                      /\ updated_at i = "2024-05-01 09:00:00")
            (items (init_db "2024-05-01 09:00:00" empty_db)).
Proof.
  apply (init_db_seeds_a_well_formed_store "2024-05-01 09:00:00" empty_db).
  - reflexivity.
  - reflexivity.
  - cbn. unfold max_int64. lia.
Defined.

Lemma lookup_after_sale_on_shop :
  result_of (get_item_stock_price "마우스"
               (store_of (change_item_stock "마우스" (-5) (Some "sale")
                            sale_time shop)))
  = Return (msg_price_stock "마우스" 25000 45).
Proof.
  apply (lookup_after_adjustment_shows_new_stock
           "마우스" (-5) (Some "sale") sale_time shop mouse 50 45).
  - reflexivity.
  - reflexivity.
Defined.

Lemma raises_on_the_full_shop :
  result_of (change_item_stock "마우스" (-5) None sale_time full_shop)
  = Raise OperationalError
  <-> exists i, find_item "마우스" full_shop = Some i
        /\ 0 <= stock i + (-5) <= max_int64
        /\ max_int64 <= largest_rowid full_shop.
Proof.
  destruct (raises_exactly_on_overflow_or_full_table
              "마우스" (-5) None sale_time full_shop) as (_ & H & _).
  - exact full_shop_ok.
  - exact H.
Defined.

Lemma busy_day_keeps_the_shop_well_formed :
  store_ok (run_calls busy_day shop)
  /\ forall i, In i (items (run_calls busy_day shop)) ->
       0 <= stock i <= max_int64.
Proof.
  apply (calls_keep_the_store_well_formed busy_day shop). exact shop_ok.
Defined.

Lemma sale_of_mice_leaves_the_keyboard :
  item_by_id 3 (store_of (change_item_stock "마우스" (-5) (Some "sale")
                            sale_time shop))
  = item_by_id 3 shop.
Proof.
  apply (call_leaves_other_items_alone
           "마우스" (-5) (Some "sale") sale_time shop 3).
  intros i H. cbn in H. injection H as <-. cbn. discriminate.
Defined.

Lemma busy_day_keeps_events_numbered :
  events_numbered (run_calls busy_day shop).
Proof.
  apply (calls_keep_events_numbered busy_day shop).
  split; constructor.
Defined.

Lemma sale_keeps_the_history_of_the_next_day :
  result_of (get_stock_history_by_date (cal := iso_day) "2024-05-03"
               (store_of (change_item_stock "마우스" (-5) (Some "sale")
                            sale_time shop)))
  = result_of (get_stock_history_by_date (cal := iso_day) "2024-05-03" shop).
Proof.
  apply (adjustment_outside_a_day_keeps_its_history (cal := iso_day)
           "마우스" (-5) (Some "sale") sale_time shop
           "2024-05-03" "2024-05-03").
  - reflexivity.
  - reflexivity.
Defined.

Lemma second_sale_adds_one_row :
  Permutation
    (query_events_in_range "2024-05-02 00:00:00" "2024-05-02 23:59:59"
       (store_of (change_item_stock "마우스" (-2) None "2024-05-02 15:00:00"
                    shop_after_sale)))
    ({| r_name := "마우스"; r_delta := -2; r_reason := Some "";
        r_created_at := "2024-05-02 15:00:00" |}
     :: query_events_in_range "2024-05-02 00:00:00" "2024-05-02 23:59:59"
          shop_after_sale).
Proof.
  apply (adjustment_in_a_day_adds_one_row
           "마우스" (-2) None "2024-05-02 15:00:00" shop_after_sale 45 43).
  - exact shop_after_sale_ok.
  - reflexivity.
  - reflexivity.
Defined.

Lemma port_9000_after_the_flag :
  select_mode decimal_int
    (["main.py"; "--http"; "7000"] ++ "--http" :: ":9000" :: ["--http"])
  = Http 9000.
Proof.
  apply (last_http_flag_gives_the_port decimal_int 9000
           ["main.py"; "--http"; "7000"] ["--http"] ":9000").
  - reflexivity.
  - intros pre' s' post' H.
    destruct pre' as [|a [|b pre']]; cbn in H; try discriminate H.
    destruct pre'; discriminate H.
Defined.

Lemma port_abc_falls_back :
  select_mode decimal_int ["main.py"; "--http"; "abc"] = Http 8080.
Proof.
  apply (unreadable_port_falls_back_to_8080 decimal_int
           ["main.py"; "--http"; "abc"]).
  - right. left. reflexivity.
  - intros pre s post H.
    destruct pre as [|a [|b [|c pre]]]; cbn in H; try discriminate H.
    + injection H as _ <- _. reflexivity.
    + destruct pre; discriminate H.
Defined.

Lemma colon_8080_is_8080 :
  select_mode decimal_int (["main.py"] ++ "--http" :: ":8080" :: [])
  = select_mode decimal_int (["main.py"] ++ "--http" :: "8080" :: []).
Proof.
  apply (leading_colon_of_the_port_is_ignored decimal_int ["main.py"] [] "8080").
  discriminate.
Defined.
